(** * homework_bot: the poll-check-notify loop of [homework.py]

    A shallow embedding of [homework.py] and the properties of its
    response validator, status formatter, API client and poll loop.

    Python values that come out of [response.json()] are modelled by
    [json]; text is a [string] of UTF-8 bytes, so that equality of
    Python strings is equality of their encodings.  Functions that only
    compute ([check_response], [parse_status]) are functions into
    [result]; functions that talk to the outside ([send_message],
    [get_api_answer], [main]) live in the monad [M], which threads the
    local variables of [main] and the counters of the outside world,
    collects the emitted events and carries a raised exception. *)

From stdpp Require Import base gmap strings list pretty.
From Stdlib Require Import ZArith.

Set Warnings "-register-all".
#[local] Open Scope Z_scope.

(** ** Values *)

(** What [json.loads] can build: [None], [bool], [int], [str], [list]
    and [dict] with string keys.  Numbers are the integers, which is
    what the API's timestamps and the HTTP status codes are. *)
Inductive json : Type :=
| JNull
| JBool (b : bool)
| JNum (z : Z)
| JStr (s : string)
| JList (l : list json)
| JDict (d : gmap string json).

(** The one-character string holding the double quote. *)
Definition dquote : string := String (Ascii.ascii_of_nat 34) EmptyString.

(** [type(v).__name__] *)
Definition type_name (v : json) : string :=
  match v with
  | JNull => "NoneType"
  | JBool _ => "bool"
  | JNum _ => "int"
  | JStr _ => "str"
  | JList _ => "list"
  | JDict _ => "dict"
  end.

(** [bool(v)], the test of [if v:] and of [v or w]. *)
Definition truthy (v : json) : bool :=
  match v with
  | JNull => false
  | JBool b => b
  | JNum z => negb (z =? 0)
  | JStr s => negb (String.eqb s EmptyString)
  | JList l => negb (bool_decide (l = []))
  | JDict d => negb (bool_decide (d = ∅))
  end.

(** [hash(v)] succeeds: lists and dicts are unhashable. *)
Definition hashable (v : json) : bool :=
  match v with
  | JList _ | JDict _ => false
  | _ => true
  end.

(** ** Exceptions *)

(** Modelled from the spec: the module [exceptions] of the repository
    is not among the sources.  Its classes [EmptyResponseFromAPI],
    [TelegramError] and [WrongResponseCode] are the typed errors the
    spec names, taken as ordinary exception classes (subclasses of
    [Exception]) constructed from the arguments the code passes.

    The other constructors are the built-in classes the code raises or
    the interpreter raises on its behalf, the errors of the libraries
    [requests] and [telegram], and [SystemExit] of [sys.exit]. *)
Inductive exn : Type :=
| TypeError (msg : string)
| KeyError (msg : string)
| ValueError (msg : string)
| AttributeError (msg : string)
| EmptyResponseFromAPI (msg : string)
| TelegramError (msg : string)
| WrongResponseCode (msg : string) (cause : option exn)
| RequestException (descr : string)
| JSONDecodeError (descr : string)
| telegram_error_TelegramError (descr : string)
| SystemExit (msg : string).

(** [isinstance(e, Exception)]: what an [except Exception] clause
    catches.  [SystemExit] derives from [BaseException] only. *)
Definition is_Exception (e : exn) : bool :=
  match e with
  | SystemExit _ => false
  | _ => true
  end.

(** [isinstance(e, telegram.error.TelegramError)] *)
Definition is_telegram_error (e : exn) : bool :=
  match e with
  | telegram_error_TelegramError _ => true
  | _ => false
  end.

(** A computation that returns or raises. *)
Inductive result (A : Type) : Type :=
| Return (a : A)
| Raise (e : exn).
Arguments Return {A} a.
Arguments Raise {A} e.

(** ** The interpreter and the outside world *)

(** What the Python interpreter and its libraries supply and the
    source does not fix: [repr] of a value, which is also its [str]
    unless the value is a string, and [str] of an exception object. *)
Class Interpreter : Type := {
  py_repr : json → string;
  py_str_exn : exn → string;
}.

(** What [requests.get] gives back: it raises, or it returns a response
    object with its [status_code], [reason] and [text], whose [json()]
    raises or returns the decoded body. *)
Inductive http_reply : Type :=
| GetRaises (e : exn)
| Response (status_code : Z) (reason text : string) (body : result json).

(** The process environment and the three services the bot talks to.
    Each service is asked by the number of calls made so far and by the
    argument of the call: the clock gives [int(time.time())], the
    homework API answers a [from_date], the chat API delivers a text
    ([None]) or fails with an error.  [telegram_Bot] is what the
    constructor [telegram.Bot(token=...)] does with a token: it builds
    the bot ([None]) or raises, as it does for a malformed token. *)
Class World : Type := {
  PRACTICUM_TOKEN : option string;
  TELEGRAM_TOKEN : option string;
  TELEGRAM_CHAT_ID : option string;
  telegram_Bot : option string → option exn;
  clock : nat → Z;
  requests_get : nat → json → http_reply;
  bot_send_message : nat → string → option exn;
}.

(** ** Constants of the module *)

Definition RETRY_PERIOD : Z := 600.

Definition ENDPOINT : string :=
  "https://practicum.yandex.ru/api/user_api/homework_statuses/".

Definition HOMEWORK_VERDICTS : gmap string string :=
  <["approved" := "Работа проверена: ревьюеру всё понравилось. Ура!"]>
  (<["reviewing" := "Работа взята на проверку ревьюером."]>
  (<["rejected" := "Работа проверена: у ревьюера есть замечания."]> ∅)).

Definition HTTPStatus_OK : Z := 200.

(** ** Operations of the interpreter on values *)

(** [needle in hay] on two strings *)
Fixpoint is_substring (needle hay : string) : bool :=
  if String.prefix needle hay then true
  else match hay with
       | EmptyString => false
       | String _ rest => is_substring needle rest
       end.

(** [c in s] for a character [c] *)
Fixpoint occurs (c : Ascii.ascii) (s : string) : bool :=
  match s with
  | EmptyString => false
  | String x rest => Ascii.eqb x c || occurs c rest
  end.

(** [v == k] for a string [k] *)
Definition eq_str (k : string) (v : json) : bool :=
  match v with
  | JStr s => String.eqb s k
  | _ => false
  end.

(** [k in v] for a string [k]: key of a dict, element of a list,
    substring of a string; the other types are not iterable. *)
Definition py_in (k : string) (v : json) : result bool :=
  match v with
  | JDict d => Return (bool_decide (is_Some (d !! k)))
  | JList l => Return (existsb (eq_str k) l)
  | JStr s => Return (is_substring k s)
  | _ => Raise (TypeError
           ("argument of type '" +:+ type_name v +:+ "' is not iterable"))
  end.

(** Sequencing of [result]. *)
Definition result_bind {A B} (r : result A) (k : A → result B) : result B :=
  match r with
  | Return a => k a
  | Raise e => Raise e
  end.

(** [v.get]: the bound method of a dict, which takes a key and a
    default; no other type of value has the attribute. *)
Definition py_getattr_get (v : json) : result (string → json → json) :=
  match v with
  | JDict d => Return (λ k dflt, default dflt (d !! k))
  | _ => Raise (AttributeError
           ("'" +:+ type_name v +:+ "' object has no attribute 'get'"))
  end.

(** [v.get(k)], whose default is [None]. *)
Definition py_get (v : json) (k : string) : result json :=
  result_bind (py_getattr_get v) (λ get, Return (get k JNull)).

(** [status in HOMEWORK_VERDICTS]: the key is hashed first; a key that
    is not a string equals none of the table's keys. *)
Definition in_verdicts (status : json) : result (option string) :=
  match status with
  | JList _ | JDict _ =>
      Raise (TypeError ("unhashable type: '" +:+ type_name status +:+ "'"))
  | JStr s => Return (HOMEWORK_VERDICTS !! s)
  | _ => Return None
  end.

Section Pure.
Context `{interp : !Interpreter}.

(** [str(v)], as an f-string or [str.format] renders a value. *)
Definition py_str (v : json) : string :=
  match v with
  | JStr s => s
  | _ => py_repr v
  end.

(** ** [check_response] *)

(** The list returned is the very list stored under ["homeworks"]. *)
Definition check_response (response : json) : result (list json) :=
  match response with
  | JDict d =>
      if bool_decide (d !! "homeworks" = None)
         || bool_decide (d !! "current_date" = None)
      then Raise (EmptyResponseFromAPI "Нет ключа homeworks в ответе")
      else
        match default JNull (d !! "homeworks") with
        | JList homeworks => Return homeworks
        | _ => Raise (TypeError "homeworks не является list")
        end
  | _ => Raise (TypeError "Ответ не является dict")
  end.

(** ** [parse_status] *)

(** The template of the notification with its two fields filled in. *)
Definition status_template (homework_name verdict : string) : string :=
  "Изменился статус проверки работы " +:+ dquote +:+ homework_name
    +:+ dquote +:+ ". " +:+ verdict.

Definition parse_status (homework : json) : result string :=
  result_bind (py_in "homework_name" homework) (λ present,
  if negb present then Raise (KeyError "Нет ключа homework_name в ответе")
  else
    result_bind (py_get homework "homework_name") (λ homework_name,
    result_bind (py_get homework "status") (λ homework_status,
    result_bind (in_verdicts homework_status) (λ verdict,
    match verdict with
    | None =>
        Raise (ValueError ("Неизвестный статус - " +:+ py_str homework_status))
    | Some verdict =>
        Return (status_template (py_str homework_name) verdict)
    end)))).

End Pure.

(** ** The monad of effects *)

Inductive log_level : Type := DEBUG | INFO | ERROR | CRITICAL.

(** What the process does that can be seen from outside, in order. *)
Inductive event : Type :=
| EvLog (level : log_level) (text : string)
| EvRequest (from_date : json)
| EvSend (text : string) (delivered : bool)
| EvSleep (seconds : Z).

(** The local variables of [main] and the number of calls made so far
    to the clock, the homework API and the chat API. *)
Record state : Type := {
  current_timestamp : json;
  last_message : string;
  clock_reads : nat;
  requests_made : nat;
  sends_made : nat;
}.

(** A run: the events emitted, the state reached, and how it ended. *)
Record run (A : Type) : Type := {
  emitted : list event;
  final : state;
  outcome : result A;
}.
Arguments emitted {A} r.
Arguments final {A} r.
Arguments outcome {A} r.

Definition M (A : Type) : Type := state → run A.

#[global] Instance M_ret : MRet M := λ A a σ,
  {| emitted := []; final := σ; outcome := Return a |}.

#[global] Instance M_bind : MBind M := λ A B k m σ,
  let r := m σ in
  match outcome r with
  | Return a =>
      let r' := k a (final r) in
      {| emitted := emitted r ++ emitted r';
         final := final r';
         outcome := outcome r' |}
  | Raise e => {| emitted := emitted r; final := final r; outcome := Raise e |}
  end.

(** [raise e] *)
Definition raise {A} (e : exn) : M A := λ σ,
  {| emitted := []; final := σ; outcome := Raise e |}.

(** A pure computation run inside [M]. *)
Definition lift {A} (r : result A) : M A := λ σ,
  {| emitted := []; final := σ; outcome := r |}.

Definition emit (ev : event) : M unit := λ σ,
  {| emitted := [ev]; final := σ; outcome := Return tt |}.

Definition read_state : M state := λ σ,
  {| emitted := []; final := σ; outcome := Return σ |}.

Definition write_state (f : state → state) : M unit := λ σ,
  {| emitted := []; final := f σ; outcome := Return tt |}.

(** [try: body / except <classes>: handler]; an exception outside the
    classes of the clause passes through. *)
Definition try_except {A} (body : M A) (catches : exn → bool)
    (handler : exn → M A) : M A := λ σ,
  let r := body σ in
  match outcome r with
  | Return a => r
  | Raise e =>
      if catches e then
        let r' := handler e (final r) in
        {| emitted := emitted r ++ emitted r';
           final := final r';
           outcome := outcome r' |}
      else r
  end.

(** [try: body / except <classes>: handler / else: orelse]; the [else]
    clause runs when the body did not raise, outside the reach of the
    [except] clause. *)
Definition try_except_else (body : M unit) (catches : exn → bool)
    (handler : exn → M unit) (orelse : M unit) : M unit :=
  entered ← try_except (body;; mret true) catches
               (λ e, handler e;; mret false);
  if entered : bool then orelse else mret tt.

(** [try: body / finally: cleanup]; the cleanup runs however the body
    ended, and the body's outcome stands unless the cleanup raises. *)
Definition try_finally {A} (body : M A) (cleanup : M unit) : M A := λ σ,
  let r := body σ in
  let r' := cleanup (final r) in
  {| emitted := emitted r ++ emitted r';
     final := final r';
     outcome := match outcome r' with
                | Return _ => outcome r
                | Raise e => Raise e
                end |}.

(** Assignments to the two local variables of [main]. *)
Definition set_current_timestamp (v : json) : M unit :=
  write_state (λ σ,
    {| current_timestamp := v;
       last_message := last_message σ;
       clock_reads := clock_reads σ;
       requests_made := requests_made σ;
       sends_made := sends_made σ |}).

Definition set_last_message (s : string) : M unit :=
  write_state (λ σ,
    {| current_timestamp := current_timestamp σ;
       last_message := s;
       clock_reads := clock_reads σ;
       requests_made := requests_made σ;
       sends_made := sends_made σ |}).

(** [logging.<level>(text)] *)
Definition logging (level : log_level) (text : string) : M unit :=
  emit (EvLog level text).

Section Effects.
Context `{interp : !Interpreter} `{world : !World}.

(** [int(time.time())] *)
Definition time_time : M Z := λ σ,
  {| emitted := [];
     final := {| current_timestamp := current_timestamp σ;
                 last_message := last_message σ;
                 clock_reads := S (clock_reads σ);
                 requests_made := requests_made σ;
                 sends_made := sends_made σ |};
     outcome := Return (clock (clock_reads σ)) |}.

(** [time.sleep(seconds)] *)
Definition time_sleep (seconds : Z) : M unit := emit (EvSleep seconds).

(** [bot.send_message(chat_id=TELEGRAM_CHAT_ID, text=text)] *)
Definition bot_call (text : string) : M unit := λ σ,
  let answer := bot_send_message (sends_made σ) text in
  {| emitted := [EvSend text (bool_decide (answer = None))];
     final := {| current_timestamp := current_timestamp σ;
                 last_message := last_message σ;
                 clock_reads := clock_reads σ;
                 requests_made := requests_made σ;
                 sends_made := S (sends_made σ) |};
     outcome := match answer with
                | None => Return tt
                | Some e => Raise e
                end |}.

(** [requests.get] with the [url], the [headers] and the parameter
    [from_date] set to [timestamp]. *)
Definition requests_call (timestamp : json) : M http_reply := λ σ,
  {| emitted := [EvRequest timestamp];
     final := {| current_timestamp := current_timestamp σ;
                 last_message := last_message σ;
                 clock_reads := clock_reads σ;
                 requests_made := S (requests_made σ);
                 sends_made := sends_made σ |};
     outcome := Return (requests_get (requests_made σ) timestamp) |}.

(** ** [send_message] *)

Definition send_message (message : string) : M unit :=
  try_except_else
    (bot_call message;;
     logging DEBUG ("Отправленно сообщение: " +:+ message))
    is_telegram_error
    (λ error,
       let error_text :=
         "Ошибка отправки сообщения в Telegram: " +:+ py_str_exn error in
       logging ERROR error_text;;
       raise (TelegramError error_text))
    (logging DEBUG "Статус отправаки сообщения в Telegram").

(** ** [get_api_answer] *)

(** [f"OAuth {PRACTICUM_TOKEN}"]; an unset variable is [None]. *)
Definition HEADERS : json :=
  JDict {[ "Authorization" :=
             JStr ("OAuth " +:+ py_str (from_option JStr JNull PRACTICUM_TOKEN)) ]}.

(** The two texts of the function that [str.format] fills with the
    fields [url], [headers] and [params] of [params_request]; they
    differ in what precedes the fields. *)
Definition format_request (before : string) (timestamp : json) : string :=
  before +:+ ENDPOINT +:+ ", " +:+ py_str HEADERS +:+ ", "
    +:+ py_str (JDict {[ "from_date" := timestamp ]}) +:+ ".".

Definition get_api_answer (current_timestamp : json) : M json :=
  timestamp ← (if truthy current_timestamp then mret current_timestamp
               else now ← time_time; mret (JNum now));
  logging INFO (format_request "Запрос к API: " timestamp);;
  try_except
    (reply ← requests_call timestamp;
     match reply with
     | GetRaises e => raise e
     | Response status_code reason text body =>
         if negb (status_code =? HTTPStatus_OK) then
           raise (WrongResponseCode
                    ("API не возвращает код 200. "
                     +:+ "Код: " +:+ py_str (JNum status_code) +:+ ". "
                     +:+ "Причина: " +:+ reason +:+ ". "
                     +:+ "Текст: " +:+ text +:+ ".") None)
         else lift body
     end)
    is_Exception
    (λ error,
       raise (WrongResponseCode
                (format_request "API не возвращает код 200. Запрос: " timestamp)
                (Some error))).

(** ** [check_tokens] *)

(** [bool(os.getenv(...))]: set and not empty. *)
Definition token_present (token : option string) : bool :=
  match token with
  | Some s => negb (String.eqb s EmptyString)
  | None => false
  end.

Definition check_tokens : M bool :=
  logging INFO "Проверка наличия всех токенов";;
  mret (forallb token_present
          [PRACTICUM_TOKEN; TELEGRAM_TOKEN; TELEGRAM_CHAT_ID]).

(** ** [main] *)

(** The body of the [try] of the loop. *)
Definition cycle_try : M unit :=
  σ ← read_state;
  response ← get_api_answer (current_timestamp σ);
  (* [response.get] is looked up before its arguments are evaluated *)
  get ← lift (py_getattr_get response);
  now ← time_time;
  set_current_timestamp (get "current_date" (JNum now));;
  homeworks ← lift (check_response response);
  message ← match homeworks with
            | first :: _ => lift (parse_status first)
            | [] => mret "Статус не изменился"
            end;
  σ ← read_state;
  if negb (String.eqb message (last_message σ)) then
    send_message message;;
    set_last_message message
  else logging INFO message.

(** The body of the [except Exception as error] of the loop. *)
Definition cycle_except (error : exn) : M unit :=
  let message := "Сбой в работе программы: " +:+ py_str_exn error in
  logging ERROR message;;
  σ ← read_state;
  if negb (String.eqb message (last_message σ)) then
    send_message message;;
    set_last_message message
  else mret tt.

(** One iteration of [while True]. *)
Definition cycle : M unit :=
  try_finally
    (try_except cycle_try is_Exception cycle_except)
    (time_sleep RETRY_PERIOD).

(** The first [n] iterations of [while True]; an exception that leaves
    an iteration ends the loop. *)
Fixpoint loop (n : nat) : M unit :=
  match n with
  | O => mret tt
  | S k => cycle;; loop k
  end.

(** [telegram.Bot(token=TELEGRAM_TOKEN)] *)
Definition new_bot : M unit :=
  match telegram_Bot TELEGRAM_TOKEN with
  | None => mret tt
  | Some e => raise e
  end.

Definition main (iterations : nat) : M unit :=
  ok ← check_tokens;
  if negb ok then
    let message := "Токен отсутствует. Бот остановлен!" in
    logging CRITICAL message;;
    raise (SystemExit message)
  else
    new_bot;;
    now ← time_time;
    set_current_timestamp (JNum now);;
    let start_message := "Бот запущен" in
    send_message start_message;;
    logging INFO start_message;;
    set_last_message EmptyString;;
    loop iterations.

End Effects.

(** The state in which [main] is entered. *)
Definition initial_state : state :=
  {| current_timestamp := JNull;
     last_message := EmptyString;
     clock_reads := 0;
     requests_made := 0;
     sends_made := 0 |}.

(** ** Auxiliary definitions for the statements *)

(** The three status codes of the table. *)
Definition known_statuses : list string := ["approved"; "reviewing"; "rejected"].

(** The texts the chat API accepted, in order. *)
Fixpoint delivered_texts (evs : list event) : list string :=
  match evs with
  | [] => []
  | EvSend text true :: rest => text :: delivered_texts rest
  | _ :: rest => delivered_texts rest
  end.

(** The requests made to the homework API, in order. *)
Fixpoint requests_of (evs : list event) : list json :=
  match evs with
  | [] => []
  | EvRequest from_date :: rest => from_date :: requests_of rest
  | _ :: rest => requests_of rest
  end.

(** The pauses of the process, in order. *)
Fixpoint sleeps_of (evs : list event) : list Z :=
  match evs with
  | [] => []
  | EvSleep seconds :: rest => seconds :: sleeps_of rest
  | _ :: rest => sleeps_of rest
  end.

(** The computation returned rather than raised. *)
Definition returned {A} (r : result A) : bool :=
  match r with
  | Return _ => true
  | Raise _ => false
  end.

(** The calls to the chat API, in order: the text passed and whether
    it was delivered. *)
Fixpoint sends_of (evs : list event) : list (string * bool) :=
  match evs with
  | [] => []
  | EvSend text delivered :: rest => (text, delivered) :: sends_of rest
  | _ :: rest => sends_of rest
  end.

(** No text occurs twice in a row. *)
Fixpoint no_repeat (l : list string) : Prop :=
  match l with
  | [] => True
  | a :: rest => match rest with
                 | [] => True
                 | b :: _ => a ≠ b
                 end ∧ no_repeat rest
  end.

(** The state after one more call to the chat API. *)
Definition after_send (σ : state) : state :=
  {| current_timestamp := current_timestamp σ;
     last_message := last_message σ;
     clock_reads := clock_reads σ;
     requests_made := requests_made σ;
     sends_made := S (sends_made σ) |}.

(** The state after one more call to the homework API. *)
Definition after_request (σ : state) : state :=
  {| current_timestamp := current_timestamp σ;
     last_message := last_message σ;
     clock_reads := clock_reads σ;
     requests_made := S (requests_made σ);
     sends_made := sends_made σ |}.

(** The state after one more reading of the clock. *)
Definition after_clock (σ : state) : state :=
  {| current_timestamp := current_timestamp σ;
     last_message := last_message σ;
     clock_reads := S (clock_reads σ);
     requests_made := requests_made σ;
     sends_made := sends_made σ |}.

(** The state after an assignment to [last_message]. *)
Definition with_last_message (s : string) (σ : state) : state :=
  {| current_timestamp := current_timestamp σ;
     last_message := s;
     clock_reads := clock_reads σ;
     requests_made := requests_made σ;
     sends_made := sends_made σ |}.

(** The state after an assignment to [current_timestamp]. *)
Definition with_current_timestamp (v : json) (σ : state) : state :=
  {| current_timestamp := v;
     last_message := last_message σ;
     clock_reads := clock_reads σ;
     requests_made := requests_made σ;
     sends_made := sends_made σ |}.

(** How the block [if message != last_message: send_message(bot,
    message); last_message = message] ends from state [σ]: nothing is sent
    when the text is the last one; otherwise the text is passed to the
    chat API once, and [last_message] is assigned when the call returned. *)
Definition dedup_step (message : string) (σ : state) (r : run unit) : Prop :=
  current_timestamp (final r) = current_timestamp σ ∧
  sleeps_of (emitted r) = [] ∧
  requests_of (emitted r) = [] ∧
  (message = last_message σ ∧ sends_of (emitted r) = [] ∧
     final r = σ ∧ outcome r = Return tt
   ∨ message ≠ last_message σ ∧ sends_of (emitted r) = [(message, true)] ∧
     final r = with_last_message message (after_send σ) ∧
     outcome r = Return tt
   ∨ message ≠ last_message σ ∧ sends_of (emitted r) = [(message, false)] ∧
     final r = after_send σ ∧ ∃ e, outcome r = Raise e).

Section Parts.
Context `{interp : !Interpreter} `{world : !World}.

(** The [from_date] that [get_api_answer] sends for a cursor:
    [current_timestamp or int(time.time())]. *)
Definition from_date_of (cursor : json) (σ : state) : json :=
  if truthy cursor then cursor else JNum (clock (clock_reads σ)).

(** How [get_api_answer] ends on a reply of the homework API. *)
Definition api_outcome (timestamp : json) (reply : http_reply) : result json :=
  let inner :=
    match reply with
    | GetRaises e => Raise e
    | Response status_code reason text body =>
        if negb (status_code =? HTTPStatus_OK) then
          Raise (WrongResponseCode
                   ("API не возвращает код 200. "
                    +:+ "Код: " +:+ py_str (JNum status_code) +:+ ". "
                    +:+ "Причина: " +:+ reason +:+ ". "
                    +:+ "Текст: " +:+ text +:+ ".") None)
        else body
    end in
  match inner with
  | Return j => Return j
  | Raise e =>
      if is_Exception e then
        Raise (WrongResponseCode
                 (format_request "API не возвращает код 200. Запрос: " timestamp)
                 (Some e))
      else Raise e
  end.

(** The first half of the [try] of the loop: fetch, move the cursor,
    validate, format. *)
Definition fetch_and_format : M string :=
  σ ← read_state;
  response ← get_api_answer (current_timestamp σ);
  get ← lift (py_getattr_get response);
  now ← time_time;
  set_current_timestamp (get "current_date" (JNum now));;
  homeworks ← lift (check_response response);
  match homeworks with
  | first :: _ => lift (parse_status first)
  | [] => mret "Статус не изменился"
  end.

(** The second half of the [try] of the loop: send what is new. *)
Definition notify_new (message : string) : M unit :=
  σ ← read_state;
  if negb (String.eqb message (last_message σ)) then
    send_message message;;
    set_last_message message
  else logging INFO message.

(** The text of the error report of the loop. *)
Definition error_report (error : exn) : string :=
  "Сбой в работе программы: " +:+ py_str_exn error.

End Parts.

(** ** Sample interpreter and worlds *)

(** The class name of an exception object. *)
Definition class_name (e : exn) : string :=
  match e with
  | TypeError _ => "TypeError"
  | KeyError _ => "KeyError"
  | ValueError _ => "ValueError"
  | AttributeError _ => "AttributeError"
  | EmptyResponseFromAPI _ => "EmptyResponseFromAPI"
  | TelegramError _ => "TelegramError"
  | WrongResponseCode _ _ => "WrongResponseCode"
  | RequestException _ => "RequestException"
  | JSONDecodeError _ => "JSONDecodeError"
  | telegram_error_TelegramError _ => "TelegramError"
  | SystemExit _ => "SystemExit"
  end.

(** [repr] as CPython prints [None], booleans, integers and strings
    that hold no quote, backslash or control character; a container is
    shown by its brackets only. *)
Definition sample_repr (v : json) : string :=
  match v with
  | JNull => "None"
  | JBool true => "True"
  | JBool false => "False"
  | JNum z => pretty z
  | JStr s => "'" +:+ s +:+ "'"
  | JList _ => "[...]"
  | JDict _ => "{...}"
  end.

(** [repr] of an exception object built from such strings. *)
Fixpoint sample_repr_exn (e : exn) : string :=
  match e with
  | WrongResponseCode msg (Some cause) =>
      "WrongResponseCode('" +:+ msg +:+ "', " +:+ sample_repr_exn cause +:+ ")"
  | TypeError msg | KeyError msg | ValueError msg | AttributeError msg
  | EmptyResponseFromAPI msg | TelegramError msg | WrongResponseCode msg None
  | RequestException msg | JSONDecodeError msg
  | telegram_error_TelegramError msg | SystemExit msg =>
      class_name e +:+ "('" +:+ msg +:+ "')"
  end.

(** [str] of an exception object: its only argument, the [repr] of it
    for a [KeyError], the [repr] of the pair for two arguments. *)
Definition sample_str_exn (e : exn) : string :=
  match e with
  | KeyError msg => "'" +:+ msg +:+ "'"
  | WrongResponseCode msg (Some cause) =>
      "('" +:+ msg +:+ "', " +:+ sample_repr_exn cause +:+ ")"
  | TypeError msg | ValueError msg | AttributeError msg
  | EmptyResponseFromAPI msg | TelegramError msg | WrongResponseCode msg None
  | RequestException msg | JSONDecodeError msg
  | telegram_error_TelegramError msg | SystemExit msg => msg
  end.

Definition sample_interpreter : Interpreter :=
  {| py_repr := sample_repr; py_str_exn := sample_str_exn |}.

(** The record of the first scenario of the spec and two malformed ones. *)
Definition hw1_approved : gmap string json :=
  {[ "homework_name" := JStr "hw1"; "status" := JStr "approved" ]}.

(** A record whose name is the verdict text of the status [reviewing]. *)
Definition verdict_named_record : gmap string json :=
  {[ "homework_name" := JStr "Работа взята на проверку ревьюером.";
     "status" := JStr "approved" ]}.

Definition nameless_record : gmap string json :=
  {[ "status" := JStr "lost" ]}.

Definition list_status_record : gmap string json :=
  {[ "homework_name" := JStr "hw1"; "status" := JList [] ]}.

Definition lost_status_record : gmap string json :=
  {[ "homework_name" := JStr "hw1"; "status" := JStr "lost" ]}.

(** Responses of the API: the first two scenarios of the spec, one
    without the key [homeworks], one without the key [current_date]. *)
Definition response_hw1 : gmap string json :=
  {[ "homeworks" := JList [JDict hw1_approved]; "current_date" := JNum 1000 ]}.

Definition response_empty : gmap string json :=
  {[ "homeworks" := JList []; "current_date" := JNum 2000 ]}.

Definition response_no_homeworks : gmap string json :=
  {[ "current_date" := JNum 3000 ]}.

Definition response_no_date : gmap string json :=
  {[ "homeworks" := JList [] ]}.

(** The text before the first colon of a token, and whether there is
    a colon: [token.partition(':')]. *)
Fixpoint before_colon (token : string) : string * bool :=
  match token with
  | EmptyString => (EmptyString, false)
  | String c rest =>
      if Ascii.eqb c (Ascii.ascii_of_nat 58) then (EmptyString, true)
      else let (left, sep) := before_colon rest in (String c left, sep)
  end.

(** All characters of a text satisfy a test. *)
Fixpoint string_forall (test : Ascii.ascii → bool) (s : string) : bool :=
  match s with
  | EmptyString => true
  | String c rest => test c && string_forall test rest
  end.

(** The constructor of the bot as python-telegram-bot 13 checks a
    token: no white space, a colon, and before the colon at least three
    characters, all digits; otherwise [InvalidToken], an error of the
    [telegram] library. *)
Definition sample_Bot (token : option string) : option exn :=
  match token with
  | None => Some (TypeError "'NoneType' object is not iterable")
  | Some t =>
      let (left, sep) := before_colon t in
      if string_forall (λ c, negb (Ascii.is_space c)) t
         && sep
         && string_forall (λ c, bool_decide (is_Some (Ascii.is_nat c))) left
         && (3 <=? String.length left)%nat
      then None
      else Some (telegram_error_TelegramError "Invalid token")
  end.

(** A world with all tokens set, a clock that ticks from 500, and the
    given homework API and chat API. *)
Definition sample_world (api : nat → json → http_reply)
    (chat : nat → string → option exn) : World :=
  {| PRACTICUM_TOKEN := Some "practicum";
     TELEGRAM_TOKEN := Some "110201543:AAHdqTcvCH1vGWJxfSeofSAs0K5PALDsaw";
     TELEGRAM_CHAT_ID := Some "42";
     telegram_Bot := sample_Bot;
     clock := λ n, 500 + Z.of_nat n;
     requests_get := api;
     bot_send_message := chat |}.

Definition api_always (body : gmap string json) : nat → json → http_reply :=
  λ _ _, Response 200 "OK" "{...}" (Return (JDict body)).

Definition api_unavailable : nat → json → http_reply :=
  λ _ _, Response 503 "Service Unavailable" "try later" (Return JNull).

Definition chat_delivers : nat → string → option exn := λ _ _, None.

(** The chat API fails on the given call and delivers on all others. *)
Definition chat_fails_at (k : nat) : nat → string → option exn :=
  λ n _, if bool_decide (n = k) then Some (telegram_error_TelegramError "Timed out")
         else None.

(** The chat API fails on every call. *)
Definition chat_down : nat → string → option exn :=
  λ _ _, Some (telegram_error_TelegramError "Timed out").

(** The state of [main] on entering the loop at time 1000. *)
Definition loop_entry : state :=
  {| current_timestamp := JNum 1000;
     last_message := EmptyString;
     clock_reads := 1;
     requests_made := 0;
     sends_made := 1 |}.

(** The API answers every request with the empty list of homeworks;
    the chat API fails on the first call of the loop only. *)
Definition world_chat_fails_once : World :=
  sample_world (api_always response_empty) (chat_fails_at 1).

(** The API answers every request with the record of [hw1]; the chat
    API delivers everything. *)
Definition world_hw1 : World :=
  sample_world (api_always response_hw1) chat_delivers.

(** The API answers every request with a dict without [homeworks]. *)
Definition world_no_homeworks : World :=
  sample_world (api_always response_no_homeworks) chat_delivers.

(** The API answers every request with status 503. *)
Definition world_unavailable : World :=
  sample_world api_unavailable chat_delivers.

(** The text [send_message] raises with when the chat API timed out. *)
Definition timed_out_text : string :=
  "Ошибка отправки сообщения в Telegram: Timed out".

(** What the [try] of the loop does with a response once the cursor is
    assigned: validate it and format the first record, or take the
    fixed text when there is none. *)
Definition message_of `{!Interpreter} (response : json) : result string :=
  result_bind (check_response response) (λ homeworks,
  match homeworks with
  | hw :: _ => parse_status hw
  | [] => Return "Статус не изменился"
  end).

(** The text an iteration has to tell: the message of the [try], or the
    report of the error the [try] raised. *)
Definition text_of `{!Interpreter} (o : result string) : string :=
  match o with
  | Return message => message
  | Raise error => error_report error
  end.

(** Every exception the services of the world raise is an
    [Exception]: none is a [SystemExit]. *)
Definition raises_only_exceptions `{!World} : Prop :=
  (∀ n from_date e,
     requests_get n from_date = GetRaises e → is_Exception e = true) ∧
  (∀ n from_date code reason text e,
     requests_get n from_date = Response code reason text (Raise e) →
     is_Exception e = true) ∧
  (∀ n text e, bot_send_message n text = Some e → is_Exception e = true).

(** The chat API delivers every text. *)
Definition chat_always_delivers `{!World} : Prop :=
  ∀ n text, bot_send_message n text = None.

(** A world without the token of the chat. *)
Definition world_no_chat_id : World :=
  {| PRACTICUM_TOKEN := Some "practicum";
     TELEGRAM_TOKEN := Some "110201543:AAHdqTcvCH1vGWJxfSeofSAs0K5PALDsaw";
     TELEGRAM_CHAT_ID := None;
     telegram_Bot := sample_Bot;
     clock := λ n, 500 + Z.of_nat n;
     requests_get := api_always response_hw1;
     bot_send_message := chat_delivers |}.

(** A world whose token of the bot is set but malformed. *)
Definition world_bad_token : World :=
  {| PRACTICUM_TOKEN := Some "practicum";
     TELEGRAM_TOKEN := Some "telegram";
     TELEGRAM_CHAT_ID := Some "42";
     telegram_Bot := sample_Bot;
     clock := λ n, 500 + Z.of_nat n;
     requests_get := api_always response_hw1;
     bot_send_message := chat_delivers |}.

(** The chat API is down from the first call on. *)
Definition world_chat_down : World :=
  sample_world (api_always response_hw1) chat_down.

(** * Properties *)

(** ** The monad *)

Lemma run_eta {A} (r : run A) :
  {| emitted := emitted r; final := final r; outcome := outcome r |} = r.
Proof. by destruct r. Qed.

Lemma bind_run {A B} (m : M A) (k : A → M B) σ :
  (m ≫= k) σ =
  match outcome (m σ) with
  | Return a =>
      {| emitted := emitted (m σ) ++ emitted (k a (final (m σ)));
         final := final (k a (final (m σ)));
         outcome := outcome (k a (final (m σ))) |}
  | Raise e =>
      {| emitted := emitted (m σ); final := final (m σ); outcome := Raise e |}
  end.
Proof. reflexivity. Qed.

Lemma bind_ret_l {A B} (a : A) (k : A → M B) σ : (mret a ≫= k) σ = k a σ.
Proof. rewrite bind_run. simpl. apply run_eta. Qed.

Lemma bind_ext {A B} (m : M A) (k k' : A → M B) σ :
  (∀ a σ', k a σ' = k' a σ') → (m ≫= k) σ = (m ≫= k') σ.
Proof.
  intros Hk. rewrite !bind_run.
  destruct (outcome (m σ)); [by rewrite Hk | done].
Qed.

Lemma bind_assoc {A B C} (m : M A) (f : A → M B) (g : B → M C) σ :
  ((m ≫= f) ≫= g) σ = (m ≫= (λ a, f a ≫= g)) σ.
Proof.
  rewrite (bind_run (m ≫= f)), (bind_run m f), (bind_run m).
  destruct (outcome (m σ)) as [a|e]; simpl; [|done].
  rewrite (bind_run (f a)).
  destruct (outcome (f a (final (m σ)))) as [b|e]; simpl; [|done].
  by rewrite app_assoc.
Qed.

(** ** Events of a run *)

Lemma delivered_texts_app evs evs' :
  delivered_texts (evs ++ evs') = delivered_texts evs ++ delivered_texts evs'.
Proof.
  induction evs as [|ev evs IH]; [done|].
  destruct ev as [| |text [|]|]; simpl; by rewrite ?IH.
Qed.

Lemma requests_of_app evs evs' :
  requests_of (evs ++ evs') = requests_of evs ++ requests_of evs'.
Proof.
  induction evs as [|ev evs IH]; [done|].
  destruct ev; simpl; by rewrite ?IH.
Qed.

Lemma sleeps_of_app evs evs' :
  sleeps_of (evs ++ evs') = sleeps_of evs ++ sleeps_of evs'.
Proof.
  induction evs as [|ev evs IH]; [done|].
  destruct ev; simpl; by rewrite ?IH.
Qed.

Lemma sends_of_app evs evs' :
  sends_of (evs ++ evs') = sends_of evs ++ sends_of evs'.
Proof.
  induction evs as [|ev evs IH]; [done|].
  destruct ev; simpl; by rewrite ?IH.
Qed.

Lemma sends_of_elem text delivered evs :
  (text, delivered) ∈ sends_of evs ↔ EvSend text delivered ∈ evs.
Proof.
  induction evs as [|ev evs IH]; simpl.
  - split; intros H; inversion H.
  - destruct ev as [| |text' delivered'|]; rewrite ?elem_of_cons, IH;
      try (split; [by right | by intros [?|?]]).
    split; (intros [H|H]; [left; congruence | by right]).
Qed.

(** The delivered texts are the texts of the calls that succeeded. *)
Lemma delivered_texts_sends_of evs :
  delivered_texts evs = (filter (λ c, c.2 = true) (sends_of evs)).*1.
Proof.
  induction evs as [|ev evs IH]; [done|].
  destruct ev as [| |text [|]|]; simpl; try done.
  by rewrite IH.
Qed.

Lemma delivered_texts_elem text evs :
  text ∈ delivered_texts evs ↔ EvSend text true ∈ evs.
Proof.
  induction evs as [|ev evs IH]; simpl.
  - split; intros H; inversion H.
  - destruct ev as [| |text' [|]|]; rewrite ?elem_of_cons, IH;
      try (split; [by right | by intros [?|?]]).
    split; (intros [H|H]; [left; congruence | by right]).
Qed.

Lemma no_repeat_app_singleton m l :
  no_repeat l → (∀ b, head l = Some b → m ≠ b) → no_repeat (m :: l).
Proof.
  intros Hl Hhd. split; [|done].
  destruct l as [|b l]; [done|]. by apply Hhd.
Qed.

(** ** The table of verdicts *)

Lemma HOMEWORK_VERDICTS_known s :
  is_Some (HOMEWORK_VERDICTS !! s) ↔ s ∈ known_statuses.
Proof.
  unfold HOMEWORK_VERDICTS, known_statuses.
  rewrite !lookup_insert_is_Some, lookup_empty, !elem_of_cons, elem_of_nil.
  split.
  - intros [->|[_ [->|[_ [->|[_ H]]]]]]; auto.
    by destruct H.
  - intros [->|[->|[->|[]]]]; [by left| |].
    + right. split; [done|]. by left.
    + right. split; [done|]. right. split; [done|]. by left.
Qed.

Lemma HOMEWORK_VERDICTS_unknown s :
  s ∉ known_statuses → HOMEWORK_VERDICTS !! s = None.
Proof.
  intros Hs. apply eq_None_not_Some. by rewrite HOMEWORK_VERDICTS_known.
Qed.

Lemma HOMEWORK_VERDICTS_inj s s' verdict :
  HOMEWORK_VERDICTS !! s = Some verdict →
  HOMEWORK_VERDICTS !! s' = Some verdict → s = s'.
Proof.
  intros Hs Hs'.
  assert (s ∈ known_statuses) as Hk
    by (apply HOMEWORK_VERDICTS_known; eauto).
  assert (s' ∈ known_statuses) as Hk'
    by (apply HOMEWORK_VERDICTS_known; eauto).
  unfold known_statuses in Hk, Hk'.
  rewrite !elem_of_cons, elem_of_nil in Hk, Hk'.
  destruct Hk as [->|[->|[->|[]]]]; destruct Hk' as [->|[->|[->|[]]]];
    try done; vm_compute in Hs, Hs'; congruence.
Qed.

(** ** Strings *)

Lemma string_app_nil_l (b : string) : EmptyString +:+ b = b.
Proof. reflexivity. Qed.

Lemma string_app_cons x (a b : string) : String x a +:+ b = String x (a +:+ b).
Proof. reflexivity. Qed.

Lemma string_app_inv_head (a b c : string) : a +:+ b = a +:+ c → b = c.
Proof. apply (inj (String.app a)). Qed.

Lemma string_app_nil_r (a : string) : a +:+ EmptyString = a.
Proof.
  induction a as [|x a IH]; [done|]. by rewrite string_app_cons, IH.
Qed.

Lemma string_app_assoc (a b c : string) : (a +:+ b) +:+ c = a +:+ (b +:+ c).
Proof.
  induction a as [|x a IH]; [done|]. by rewrite !string_app_cons, IH.
Qed.

Lemma prefix_app (n b : string) : String.prefix n (n +:+ b) = true.
Proof.
  induction n as [|x n IH]; [by destruct b|].
  rewrite string_app_cons. simpl. by destruct (Ascii.ascii_dec x x).
Qed.

Lemma is_substring_prefix (n hay : string) :
  String.prefix n hay = true → is_substring n hay = true.
Proof. destruct hay; simpl; by intros ->. Qed.

Lemma is_substring_cons (n : string) x (hay : string) :
  is_substring n hay = true → is_substring n (String x hay) = true.
Proof.
  intros H. change (is_substring n (String x hay)) with
    (if String.prefix n (String x hay) then true else is_substring n hay).
  by destruct (String.prefix n (String x hay)).
Qed.

Lemma is_substring_app (n a b : string) : is_substring n (a +:+ n +:+ b) = true.
Proof.
  induction a as [|x a IH].
  - rewrite string_app_nil_l. apply is_substring_prefix, prefix_app.
  - rewrite string_app_cons. by apply is_substring_cons.
Qed.

Lemma is_substring_app_r (n a : string) : is_substring n (a +:+ n) = true.
Proof.
  rewrite <- (string_app_nil_r n) at 2. apply is_substring_app.
Qed.

Lemma is_substring_String (n : string) x (hay : string) :
  is_substring n (String x hay) =
  if String.prefix n (String x hay) then true else is_substring n hay.
Proof. reflexivity. Qed.

Lemma prefix_String a (p : string) c (x : string) :
  String.prefix (String a p) (String c x) =
  if Ascii.eqb a c then String.prefix p x else false.
Proof.
  simpl. destruct (Ascii.ascii_dec a c) as [->|Hne].
  - by rewrite Ascii.eqb_refl.
  - by apply Ascii.eqb_neq in Hne as ->.
Qed.

Lemma prefix_nil_l (x : string) : String.prefix EmptyString x = true.
Proof. by destruct x. Qed.

(** A prefix of [x] followed by more is a prefix of [x] itself when the
    character that follows [x] does not occur in it. *)
Lemma prefix_app_boundary (p x : string) c (rest : string) :
  occurs c p = false →
  String.prefix p (x +:+ String c rest) = true →
  String.prefix p x = true.
Proof.
  revert p. induction x as [|a x IH]; intros p Hocc.
  - rewrite string_app_nil_l. destruct p as [|b p]; [done|].
    rewrite prefix_String. cbn [occurs] in Hocc.
    apply orb_false_elim in Hocc as [-> _]. done.
  - rewrite string_app_cons. destruct p as [|b p]; [done|].
    rewrite !prefix_String. cbn [occurs] in Hocc.
    apply orb_false_elim in Hocc as [_ Hocc].
    destruct (Ascii.eqb b a); [by apply IH|done].
Qed.

Lemma prefix_app_r (p x y : string) :
  String.prefix p x = true → String.prefix p (x +:+ y) = true.
Proof.
  revert p. induction x as [|a x IH]; intros p.
  - destruct p as [|b p]; [intros _; apply prefix_nil_l|done].
  - rewrite string_app_cons. destruct p as [|b p]; [done|].
    rewrite !prefix_String. destruct (Ascii.eqb b a); [apply IH|done].
Qed.

(** An occurrence in [x] followed by more lies in [x] or in what
    follows, when the character that follows [x] is not in the text
    looked for. *)
Lemma is_substring_app_boundary (p x : string) c (rest : string) :
  occurs c p = false →
  is_substring p (x +:+ String c rest) = true →
  is_substring p x = true ∨ is_substring p (String c rest) = true.
Proof.
  intros Hocc. induction x as [|a x IH].
  - rewrite string_app_nil_l. by right.
  - rewrite string_app_cons, is_substring_String.
    destruct (String.prefix p (String a (x +:+ String c rest))) eqn:Hp.
    + intros _. left. apply is_substring_prefix.
      apply (prefix_app_boundary p (String a x) c rest Hocc).
      by rewrite string_app_cons.
    + intros H. destruct (IH H) as [Hx|Hr]; [|by right].
      left. by apply is_substring_cons.
Qed.

Lemma is_substring_app_l (n a h : string) :
  is_substring n h = true → is_substring n (a +:+ h) = true.
Proof.
  intros H. induction a as [|x a IH]; [done|].
  rewrite string_app_cons. by apply is_substring_cons.
Qed.

Lemma is_substring_app_mono_r (n h b : string) :
  is_substring n h = true → is_substring n (h +:+ b) = true.
Proof.
  induction h as [|x h IH].
  - destruct n as [|a n]; [|done]. intros _.
    apply is_substring_prefix, prefix_nil_l.
  - rewrite string_app_cons, !is_substring_String.
    destruct (String.prefix n (String x h)) eqn:Hp.
    + intros _. rewrite <- string_app_cons.
      by rewrite (prefix_app_r _ _ b Hp).
    + intros H. rewrite (IH H).
      by destruct (String.prefix n (String x (h +:+ b))).
Qed.

(** The verdicts of the table hold no double quote and do not occur in
    the fixed head of the template. *)
Lemma verdict_facts status verdict :
  HOMEWORK_VERDICTS !! status = Some verdict →
  occurs (Ascii.ascii_of_nat 34) verdict = false ∧
  is_substring verdict "Изменился статус проверки работы " = false.
Proof.
  intros Hv.
  assert (status ∈ known_statuses) as Hk
    by (apply HOMEWORK_VERDICTS_known; eauto).
  unfold known_statuses in Hk. rewrite !elem_of_cons, elem_of_nil in Hk.
  destruct Hk as [->|[->|[->|[]]]]; vm_compute in Hv;
    injection Hv as <-; by vm_compute.
Qed.

(** The verdict of one status does not occur in the tail of the
    template filled with the verdict of another. *)
Lemma verdict_not_in_tail status status' verdict verdict' :
  status' ≠ status →
  HOMEWORK_VERDICTS !! status = Some verdict →
  HOMEWORK_VERDICTS !! status' = Some verdict' →
  is_substring verdict' (dquote +:+ ". " +:+ verdict) = false.
Proof.
  intros Hne Hv Hv'.
  assert (status ∈ known_statuses) as Hk
    by (apply HOMEWORK_VERDICTS_known; eauto).
  assert (status' ∈ known_statuses) as Hk'
    by (apply HOMEWORK_VERDICTS_known; eauto).
  unfold known_statuses in Hk, Hk'.
  rewrite !elem_of_cons, elem_of_nil in Hk, Hk'.
  destruct Hk as [->|[->|[->|[]]]]; destruct Hk' as [->|[->|[->|[]]]];
    try done; vm_compute in Hv, Hv';
    injection Hv as <-; injection Hv' as <-; by vm_compute.
Qed.

(** The filled template contains the verdict of another status exactly
    when the name does. *)
Lemma status_template_other_verdict status status' verdict verdict' name :
  status' ≠ status →
  HOMEWORK_VERDICTS !! status = Some verdict →
  HOMEWORK_VERDICTS !! status' = Some verdict' →
  is_substring verdict' (status_template name verdict) = true ↔
  is_substring verdict' name = true.
Proof.
  intros Hne Hv Hv'.
  destruct (verdict_facts _ _ Hv') as [Hocc Hhead].
  pose proof (verdict_not_in_tail _ _ _ _ Hne Hv Hv') as Htail.
  unfold status_template. split.
  - change (dquote +:+ name +:+ dquote +:+ ". " +:+ verdict)
      with (String (Ascii.ascii_of_nat 34)
              (name +:+ dquote +:+ ". " +:+ verdict)).
    intros H.
    apply (is_substring_app_boundary _ _ _ _ Hocc) in H as [H|H];
      [congruence|].
    rewrite is_substring_String in H.
    destruct (String.prefix verdict' _) eqn:Hp.
    { destruct verdict' as [|a v]; [done|].
      rewrite prefix_String in Hp. cbn [occurs] in Hocc.
      apply orb_false_elim in Hocc as [Ha _]. by rewrite Ha in Hp. }
    change (dquote +:+ ". " +:+ verdict)
      with (String (Ascii.ascii_of_nat 34) (". " +:+ verdict)) in H.
    apply (is_substring_app_boundary _ _ _ _ Hocc) in H as [H|H]; [done|].
    change (String (Ascii.ascii_of_nat 34) (". " +:+ verdict))
      with (dquote +:+ ". " +:+ verdict) in H. congruence.
  - intros H. apply is_substring_app_l, is_substring_app_l.
    by apply is_substring_app_mono_r.
Qed.

(** ** [check_response] and [parse_status] *)

Section PureProperties.
Context `{interp : !Interpreter}.

Lemma status_template_inj name verdict verdict' :
  status_template name verdict = status_template name verdict' →
  verdict = verdict'.
Proof.
  unfold status_template. intros H.
  repeat (apply string_app_inv_head in H). done.
Qed.

Lemma parse_status_dict d :
  parse_status (JDict d) =
  if bool_decide (is_Some (d !! "homework_name")) then
    match in_verdicts (default JNull (d !! "status")) with
    | Return (Some verdict) =>
        Return (status_template
                  (py_str (default JNull (d !! "homework_name"))) verdict)
    | Return None =>
        Raise (ValueError ("Неизвестный статус - "
                           +:+ py_str (default JNull (d !! "status"))))
    | Raise e => Raise e
    end
  else Raise (KeyError "Нет ключа homework_name в ответе").
Proof.
  unfold parse_status. simpl. case_bool_decide; simpl; [|done].
  by destruct (in_verdicts _) as [[?|]|?].
Qed.

(** What [parse_status] returns is an instance of the template. *)
Lemma parse_status_returns homework message :
  parse_status homework = Return message →
  ∃ name verdict, message = status_template name verdict.
Proof.
  unfold parse_status.
  destruct (py_in _ _) as [[|]|]; simpl; try done.
  destruct (py_get homework "homework_name"); simpl; try done.
  destruct (py_get homework "status"); simpl; try done.
  destruct (in_verdicts _) as [[?|]|]; simpl; try done.
  intros [= <-]. eauto.
Qed.

(** C4: for every dict response that has the keys [homeworks] and
    [current_date] and whose [homeworks] value is a list,
    [check_response] returns exactly that list, unchanged, the empty
    list included. *)
Theorem check_response_returns_homeworks
    (response : gmap string json) (homeworks : list json) :
  response !! "homeworks" = Some (JList homeworks) →
  is_Some (response !! "current_date") →
  check_response (JDict response) = Return homeworks.
Proof.
  intros Hh [date Hd]. unfold check_response.
  rewrite Hh, Hd. simpl. done.
Qed.

(** C5: for every dict response that lacks the key [homeworks] or the
    key [current_date], or both, [check_response] fails with
    [EmptyResponseFromAPI]. *)
Theorem check_response_missing_key (response : gmap string json) :
  response !! "homeworks" = None ∨ response !! "current_date" = None →
  check_response (JDict response) =
    Raise (EmptyResponseFromAPI "Нет ключа homeworks в ответе").
Proof.
  intros H. unfold check_response.
  destruct H as [-> | ->]; simpl; [done|].
  by rewrite orb_true_r.
Qed.

(** C3, as amended: for every homework record that has the key
    [homework_name] and whose status, absent or present, is a hashable
    value outside the three known ones, [parse_status] fails with a
    value error that names the status. *)
Theorem parse_status_unknown_status (homework : gmap string json) :
  is_Some (homework !! "homework_name") →
  hashable (default JNull (homework !! "status")) = true →
  (∀ s, default JNull (homework !! "status") = JStr s → s ∉ known_statuses) →
  parse_status (JDict homework) =
    Raise (ValueError ("Неизвестный статус - "
                       +:+ py_str (default JNull (homework !! "status")))).
Proof.
  intros Hname Hhash Hout. rewrite parse_status_dict.
  rewrite bool_decide_eq_true_2 by done.
  destruct (default JNull (homework !! "status")) as [| | |s| |] eqn:E;
    simpl in *; try done.
  by rewrite HOMEWORK_VERDICTS_unknown by auto.
Qed.

(** C6, as amended: for every homework record with the key
    [homework_name] and a status among the three known ones,
    [parse_status] returns the template filled with the homework name
    and the verdict the table gives for that status; the returned text
    contains the name and that verdict, it is not the template filled
    with the verdict of any other status, and it contains the verdict
    text of another status exactly when the name itself contains that
    text.  For the record of [hw1] with status [approved] it is the
    text of the first scenario. *)
Theorem parse_status_known_status
    (homework : gmap string json) (name : json) (status : string) :
  homework !! "homework_name" = Some name →
  homework !! "status" = Some (JStr status) →
  status ∈ known_statuses →
  ∃ verdict message,
    HOMEWORK_VERDICTS !! status = Some verdict ∧
    parse_status (JDict homework) = Return message ∧
    message = status_template (py_str name) verdict ∧
    is_substring (py_str name) message = true ∧
    is_substring verdict message = true ∧
    (∀ status' verdict',
       status' ≠ status →
       HOMEWORK_VERDICTS !! status' = Some verdict' →
       verdict' ≠ verdict ∧
       message ≠ status_template (py_str name) verdict') ∧
    (∀ status' verdict',
       status' ≠ status →
       HOMEWORK_VERDICTS !! status' = Some verdict' →
       is_substring verdict' message = true ↔
       is_substring verdict' (py_str name) = true) ∧
    parse_status (JDict hw1_approved) =
      Return ("Изменился статус проверки работы " +:+ dquote +:+ "hw1"
              +:+ dquote
              +:+ ". Работа проверена: ревьюеру всё понравилось. Ура!").
Proof.
  intros Hname Hstatus Hknown.
  apply HOMEWORK_VERDICTS_known in Hknown as [verdict Hverdict].
  exists verdict, (status_template (py_str name) verdict).
  split; [done|]. split.
  { rewrite parse_status_dict.
    rewrite bool_decide_eq_true_2 by (rewrite Hname; eauto).
    rewrite Hname, Hstatus. simpl. by rewrite Hverdict. }
  split; [done|]. split.
  { unfold status_template.
    rewrite <- (string_app_assoc _ dquote). apply is_substring_app. }
  split.
  { unfold status_template. rewrite <- !string_app_assoc.
    apply is_substring_app_r. }
  split; [|split; [|done]].
  - intros status' verdict' Hne Hverdict'.
    assert (verdict' ≠ verdict) as Hv.
    { intros ->. apply Hne. eapply HOMEWORK_VERDICTS_inj; eauto. }
    split; [done|]. intros H. apply status_template_inj in H. done.
  - intros status' verdict' Hne Hverdict'.
    by eapply status_template_other_verdict.
Qed.

End PureProperties.

(** ** [send_message] and [get_api_answer] *)

Section EffectProperties.
Context `{interp : !Interpreter} `{world : !World}.

(** The three ways [send_message] can end. *)
Lemma send_message_run message σ :
  send_message message σ =
  match bot_send_message (sends_made σ) message with
  | None =>
      {| emitted := [EvSend message true;
                     EvLog DEBUG ("Отправленно сообщение: " +:+ message);
                     EvLog DEBUG "Статус отправаки сообщения в Telegram"];
         final := after_send σ;
         outcome := Return tt |}
  | Some e =>
      if is_telegram_error e then
        {| emitted := [EvSend message false;
                       EvLog ERROR ("Ошибка отправки сообщения в Telegram: "
                                    +:+ py_str_exn e)];
           final := after_send σ;
           outcome := Raise (TelegramError
                               ("Ошибка отправки сообщения в Telegram: "
                                +:+ py_str_exn e)) |}
      else
        {| emitted := [EvSend message false];
           final := after_send σ;
           outcome := Raise e |}
  end.
Proof.
  destruct σ as [ts lm c r n].
  unfold send_message, try_except_else, try_except, bot_call.
  cbv -[String.append py_str_exn is_telegram_error bot_send_message].
  destruct (bot_send_message n message) as [e|];
    [destruct (is_telegram_error e)|]; reflexivity.
Qed.

(** [send_message] calls the chat API once, leaves the local variables
    alone, and returns exactly when the text was delivered. *)
Lemma send_message_facts message σ :
  final (send_message message σ) = after_send σ ∧
  ∃ delivered rest,
    emitted (send_message message σ) = EvSend message delivered :: rest ∧
    Forall (λ ev, ∃ level text, ev = EvLog level text) rest ∧
    (delivered = true ↔ outcome (send_message message σ) = Return tt).
Proof.
  rewrite send_message_run.
  destruct (bot_send_message (sends_made σ) message) as [e|]; simpl.
  - destruct (is_telegram_error e); simpl; (split; [done|]);
      eexists false, _; (split; [done|]);
      (split; [repeat constructor; eauto | split; intros; discriminate]).
  - split; [done|]. eexists true, _. split; [done|].
    split; [repeat constructor; eauto | done].
Qed.

(** [get_api_answer] reads the clock when the cursor is falsy, logs the
    request, makes one request and ends as [api_outcome] says. *)
Lemma get_api_answer_run cursor σ :
  get_api_answer cursor σ =
  let timestamp := from_date_of cursor σ in
  let σ' := if truthy cursor then σ else after_clock σ in
  {| emitted := [EvLog INFO (format_request "Запрос к API: " timestamp);
                 EvRequest timestamp];
     final := after_request σ';
     outcome := api_outcome timestamp
                  (requests_get (requests_made σ) timestamp) |}.
Proof.
  unfold get_api_answer, from_date_of, api_outcome, try_except, requests_call,
    time_time, logging, emit, raise, lift, after_request, after_clock,
    mbind, M_bind, mret, M_ret.
  destruct (truthy cursor); simpl.
  - destruct (requests_get _ _) as [e|code reason text [j|e]]; simpl.
    + by destruct (is_Exception e).
    + by destruct (code =? HTTPStatus_OK).
    + destruct (code =? HTTPStatus_OK); simpl; [|done].
      by destruct (is_Exception e).
  - destruct (requests_get _ _) as [e|code reason text [j|e]]; simpl.
    + by destruct (is_Exception e).
    + by destruct (code =? HTTPStatus_OK).
    + destruct (code =? HTTPStatus_OK); simpl; [|done].
      by destruct (is_Exception e).
Qed.

End EffectProperties.

(** ** The poll loop *)

Section LoopProperties.
Context `{interp : !Interpreter} `{world : !World}.

#[local] Arguments check_response : simpl never.
#[local] Arguments parse_status : simpl never.

(** The [try] of the loop is its two halves in sequence. *)
Lemma cycle_try_split σ : cycle_try σ = (fetch_and_format ≫= notify_new) σ.
Proof.
  symmetry. unfold fetch_and_format, cycle_try.
  repeat (rewrite bind_assoc; apply bind_ext; intros).
  reflexivity.
Qed.

(** The first half makes the one request of [get_api_answer]; it sends
    nothing, does not sleep and leaves [last_message] and the count of
    sends alone. *)
Lemma fetch_and_format_facts σ :
  emitted (fetch_and_format σ) =
    emitted (get_api_answer (current_timestamp σ) σ) ∧
  last_message (final (fetch_and_format σ)) = last_message σ ∧
  sends_made (final (fetch_and_format σ)) = sends_made σ ∧
  requests_made (final (fetch_and_format σ)) = S (requests_made σ).
Proof.
  unfold fetch_and_format, read_state, mbind, M_bind, mret, M_ret. simpl.
  rewrite get_api_answer_run. simpl.
  destruct (api_outcome _ _) as [response|e]; simpl;
    [|by destruct (truthy (current_timestamp σ))].
  destruct response as [| | | | |d]; simpl;
    try by destruct (truthy (current_timestamp σ)).
  destruct (check_response (JDict d)) as [[|hw rest]|e]; simpl;
    by destruct (truthy (current_timestamp σ)).
Qed.

(** A message of the first half is the fixed text or a filled template. *)
Lemma fetch_and_format_message σ message :
  outcome (fetch_and_format σ) = Return message →
  message = "Статус не изменился" ∨
  ∃ name verdict, message = status_template name verdict.
Proof.
  unfold fetch_and_format, read_state, mbind, M_bind, mret, M_ret. simpl.
  destruct (outcome (get_api_answer _ _)) as [response|e]; simpl; [|done].
  destruct (py_getattr_get response) as [get|e]; simpl; [|done].
  destruct (check_response response) as [[|hw rest]|e]; simpl; [| |done].
  - intros [= <-]. by left.
  - destruct (parse_status hw) eqn:E; simpl; [|done].
    intros [= <-]. right. by eapply parse_status_returns.
Qed.

Lemma notify_new_run message σ :
  notify_new message σ =
  if String.eqb message (last_message σ) then
    {| emitted := [EvLog INFO message]; final := σ; outcome := Return tt |}
  else
    let s := send_message message σ in
    {| emitted := emitted s;
       final := match outcome s with
                | Return _ => with_last_message message (final s)
                | Raise _ => final s
                end;
       outcome := outcome s |}.
Proof.
  unfold notify_new, read_state, set_last_message, write_state, logging, emit,
    with_last_message, mbind, M_bind. simpl.
  destruct (String.eqb message (last_message σ)); simpl; [done|].
  destruct (outcome (send_message message σ)) as [[]|e]; simpl; [|done].
  by rewrite app_nil_r.
Qed.

Lemma cycle_except_run error σ :
  cycle_except error σ =
  if String.eqb (error_report error) (last_message σ) then
    {| emitted := [EvLog ERROR (error_report error)];
       final := σ;
       outcome := Return tt |}
  else
    let s := send_message (error_report error) σ in
    {| emitted := EvLog ERROR (error_report error) :: emitted s;
       final := match outcome s with
                | Return _ => with_last_message (error_report error) (final s)
                | Raise _ => final s
                end;
       outcome := outcome s |}.
Proof.
  unfold cycle_except.
  change ("Сбой в работе программы: " +:+ py_str_exn error)
    with (error_report error).
  generalize (error_report error). intros message.
  unfold read_state, set_last_message, write_state,
    logging, emit, with_last_message, mbind, M_bind, mret, M_ret. simpl.
  destruct (String.eqb message (last_message σ)); simpl; [done|].
  destruct (outcome (send_message message σ)) as [[]|e]; simpl; [|done].
  by rewrite app_nil_r.
Qed.

(** One iteration: the [try], the handler when the [try] raised an
    [Exception], then the sleep. *)
Lemma cycle_run σ :
  cycle σ =
  let t := cycle_try σ in
  match outcome t with
  | Return _ =>
      {| emitted := emitted t ++ [EvSleep RETRY_PERIOD];
         final := final t;
         outcome := outcome t |}
  | Raise e =>
      if is_Exception e then
        let h := cycle_except e (final t) in
        {| emitted := (emitted t ++ emitted h) ++ [EvSleep RETRY_PERIOD];
           final := final h;
           outcome := outcome h |}
      else
        {| emitted := emitted t ++ [EvSleep RETRY_PERIOD];
           final := final t;
           outcome := outcome t |}
  end.
Proof.
  unfold cycle, try_finally, try_except, time_sleep, emit.
  generalize (cycle_try σ). intros [evs σ1 [[]|e]]; simpl; [done|].
  by destruct (is_Exception e).
Qed.

Lemma loop_succ n σ :
  loop (S n) σ =
  match outcome (cycle σ) with
  | Return _ =>
      {| emitted := emitted (cycle σ) ++ emitted (loop n (final (cycle σ)));
         final := final (loop n (final (cycle σ)));
         outcome := outcome (loop n (final (cycle σ))) |}
  | Raise e =>
      {| emitted := emitted (cycle σ);
         final := final (cycle σ);
         outcome := Raise e |}
  end.
Proof. reflexivity. Qed.

Lemma emitted_get_api_answer cursor σ :
  emitted (get_api_answer cursor σ) =
    [EvLog INFO (format_request "Запрос к API: " (from_date_of cursor σ));
     EvRequest (from_date_of cursor σ)].
Proof. by rewrite get_api_answer_run. Qed.

(** The block after [send_message] was unfolded, for any texts of the
    log lines around the call. *)
Lemma send_message_step message σ :
  sends_of (emitted (send_message message σ)) =
    [(message, returned (outcome (send_message message σ)))] ∧
  sleeps_of (emitted (send_message message σ)) = [] ∧
  requests_of (emitted (send_message message σ)) = [] ∧
  final (send_message message σ) = after_send σ.
Proof.
  rewrite send_message_run.
  destruct (bot_send_message (sends_made σ) message) as [e|]; [|done].
  by destruct (is_telegram_error e).
Qed.

Lemma notify_new_step message σ : dedup_step message σ (notify_new message σ).
Proof.
  unfold dedup_step. rewrite notify_new_run.
  destruct (String.eqb_spec message (last_message σ)) as [Heq|Hne].
  { repeat split; try done. by left. }
  destruct (send_message_step message σ) as (Hs & Hsl & Hrq & Hfin).
  cbn [emitted final outcome]. rewrite Hs, Hsl, Hrq.
  destruct (outcome (send_message message σ)) as [[]|e];
    rewrite Hfin; (repeat split; [done..|]).
  - by right; left.
  - right; right. eauto.
Qed.

Lemma cycle_except_step error σ :
  dedup_step (error_report error) σ (cycle_except error σ).
Proof.
  unfold dedup_step. rewrite cycle_except_run.
  generalize (error_report error). intros message.
  destruct (String.eqb_spec message (last_message σ)) as [Heq|Hne].
  { repeat split; try done. by left. }
  destruct (send_message_step message σ) as (Hs & Hsl & Hrq & Hfin).
  cbn [emitted final outcome sends_of sleeps_of requests_of].
  rewrite Hs, Hsl, Hrq.
  destruct (outcome (send_message message σ)) as [[]|e];
    rewrite Hfin; (repeat split; [done..|]).
  - by right; left.
  - right; right. eauto.
Qed.

(** A message of the first half is never the text of an error report:
    the two differ within their first letters. *)
Lemma message_not_error_report message error :
  message = "Статус не изменился" ∨
    (∃ name verdict, message = status_template name verdict) →
  message ≠ error_report error.
Proof.
  unfold error_report, status_template.
  intros [->|(name & verdict & ->)] H;
    repeat rewrite string_app_cons in H; discriminate H.
Qed.

(** One iteration, by the calls it makes to the chat API: none; one
    that delivers; one that fails; a failed one followed by the error
    report, delivered or not. *)
Lemma cycle_summary σ :
  requests_of (emitted (cycle σ)) = [from_date_of (current_timestamp σ) σ] ∧
  (sends_of (emitted (cycle σ)) = [] ∧
     last_message (final (cycle σ)) = last_message σ
   ∨ (∃ m, sends_of (emitted (cycle σ)) = [(m, true)] ∧
        m ≠ last_message σ ∧
        last_message (final (cycle σ)) = m ∧
        outcome (cycle σ) = Return tt)
   ∨ (∃ m, sends_of (emitted (cycle σ)) = [(m, false)] ∧
        m ≠ last_message σ ∧
        last_message (final (cycle σ)) = last_message σ)
   ∨ (∃ m e, sends_of (emitted (cycle σ)) =
               [(m, false); (error_report e, true)] ∧
        m ≠ last_message σ ∧ error_report e ≠ last_message σ ∧
        m ≠ error_report e ∧
        last_message (final (cycle σ)) = error_report e ∧
        outcome (cycle σ) = Return tt)
   ∨ (∃ m e, sends_of (emitted (cycle σ)) =
               [(m, false); (error_report e, false)] ∧
        m ≠ last_message σ ∧ error_report e ≠ last_message σ ∧
        m ≠ error_report e ∧
        last_message (final (cycle σ)) = last_message σ ∧
        ∃ e', outcome (cycle σ) = Raise e')).
Proof.
  rewrite cycle_run, cycle_try_split, bind_run.
  pose proof (fetch_and_format_facts σ) as (Hev & Hlast & _ & _).
  pose proof (fetch_and_format_message σ) as Hmsg.
  rewrite emitted_get_api_answer in Hev.
  destruct (fetch_and_format σ) as [evs σ1 [m|e]];
    cbn [emitted final outcome] in *; subst evs.
  - (* the first half returned [m] *)
    specialize (Hmsg m eq_refl).
    destruct (notify_new_step m σ1)
      as (_ & _ & Hrq & [(-> & Hs & -> & Ho)|[(Hne & Hs & -> & Ho)
                                               |(Hne & Hs & Hf & e & Ho)]]);
      rewrite Ho; cbn [emitted final outcome].
    + rewrite !requests_of_app, !sends_of_app, Hrq, Hs;
        cbn [sends_of requests_of app]. split; [done|].
      by left.
    + rewrite !requests_of_app, !sends_of_app, Hrq, Hs;
        cbn [sends_of requests_of app]. split; [done|].
      right; left. exists m. by rewrite <- Hlast.
    + destruct (is_Exception e) eqn:Hexc; cbn [emitted final outcome].
      * destruct (cycle_except_step e (final (notify_new m σ1)))
          as (_ & _ & Hrq' & [(Heq & Hs' & -> & Ho')|[(Hne' & Hs' & -> & Ho')
                                               |(Hne' & Hs' & -> & e' & Ho')]]);
          rewrite ?Ho'; rewrite !requests_of_app, !sends_of_app, Hrq, Hrq', Hs, Hs';
          rewrite Hf in *;
          cbn [last_message after_send with_last_message sends_of requests_of app]
            in *;
          (split; [done|]).
        -- right; right; left. exists m. by rewrite <- Hlast.
        -- right; right; right; left. exists m, e.
           rewrite <- Hlast.
           repeat split; auto using message_not_error_report.
        -- right; right; right; right. exists m, e.
           rewrite <- Hlast.
           repeat split; eauto using message_not_error_report.
      * rewrite !requests_of_app, !sends_of_app, Hrq, Hs;
        cbn [sends_of requests_of app]. split; [done|].
        right; right; left. exists m. rewrite Hf, <- Hlast. done.
  - (* the first half raised [e] *)
    clear Hmsg.
    destruct (is_Exception e) eqn:Hexc; cbn [emitted final outcome].
    + destruct (cycle_except_step e σ1)
        as (_ & _ & Hrq' & [(Heq & Hs' & -> & Ho')|[(Hne' & Hs' & -> & Ho')
                                             |(Hne' & Hs' & -> & e' & Ho')]]);
        rewrite ?Ho'; rewrite !requests_of_app, !sends_of_app, Hrq', Hs';
        cbn [last_message after_send with_last_message sends_of requests_of app]
          in *;
        (split; [done|]).
      * by left.
      * right; left. exists (error_report e). by rewrite <- Hlast.
      * right; right; left. exists (error_report e). by rewrite <- Hlast.
    + rewrite !requests_of_app, !sends_of_app.
      cbn [sends_of requests_of app]. split; [done|]. by left.
Qed.

(** Neither half of the [try] nor the handler sleeps. *)
Lemma cycle_try_sleeps σ : sleeps_of (emitted (cycle_try σ)) = [].
Proof.
  rewrite cycle_try_split, bind_run.
  pose proof (fetch_and_format_facts σ) as (Hev & _).
  rewrite emitted_get_api_answer in Hev.
  destruct (notify_new_step
              (match outcome (fetch_and_format σ) with
               | Return m => m
               | Raise _ => EmptyString
               end) (final (fetch_and_format σ))) as (_ & Hsl & _).
  destruct (outcome (fetch_and_format σ)); cbn [emitted];
    rewrite ?sleeps_of_app, ?Hsl, Hev; done.
Qed.

(** At most one text is delivered in an iteration, and [last_message]
    is that text afterwards; it keeps its value when none is. *)
Lemma cycle_delivered σ :
  delivered_texts (emitted (cycle σ)) = [] ∧
    last_message (final (cycle σ)) = last_message σ
  ∨ ∃ m, delivered_texts (emitted (cycle σ)) = [m] ∧
      m ≠ last_message σ ∧
      last_message (final (cycle σ)) = m ∧
      outcome (cycle σ) = Return tt.
Proof.
  rewrite delivered_texts_sends_of.
  destruct (cycle_summary σ) as
    (_ & [(-> & Hl)|[(m & -> & Hne & Hl & Ho)|[(m & -> & Hne & Hl)
         |[(m & e & -> & Hne & Hne' & _ & Hl & Ho)
          |(m & e & -> & Hne & Hne' & _ & Hl & _)]]]]);
    cbn; eauto 10.
Qed.

(** Over any number of iterations no text is delivered twice in a row,
    and the first text delivered is not the [last_message] the loop
    started from. *)
Lemma loop_delivered n σ :
  no_repeat (delivered_texts (emitted (loop n σ))) ∧
  ∀ b, head (delivered_texts (emitted (loop n σ))) = Some b →
       b ≠ last_message σ.
Proof.
  revert σ. induction n as [|n IH]; intros σ; [done|].
  rewrite loop_succ.
  destruct (IH (final (cycle σ))) as [Hnr Hhd].
  destruct (cycle_delivered σ) as [[Hd Hl]|(m & Hd & Hne & Hl & Ho)].
  - destruct (outcome (cycle σ)); cbn [emitted];
      rewrite ?delivered_texts_app, Hd; [|done].
    rewrite Hl in Hhd. done.
  - rewrite Ho. cbn [emitted]. rewrite delivered_texts_app, Hd.
    rewrite Hl in Hhd. split.
    + apply no_repeat_app_singleton; [done|].
      intros b Hb Heq. by apply (Hhd b).
    + by intros b [= <-].
Qed.

(** C8: every iteration of the loop ends with one sleep of the fixed
    retry period, whether the iteration returned or an exception left
    it, from the [try] or from the handler; and all events of the later
    iterations come after that sleep. *)
Theorem cycle_ends_with_sleep (σ : state) (n : nat) :
  (∃ body, emitted (cycle σ) = body ++ [EvSleep RETRY_PERIOD] ∧
           sleeps_of body = []) ∧
  last (emitted (cycle σ)) = Some (EvSleep RETRY_PERIOD) ∧
  emitted (loop (S n) σ) =
    emitted (cycle σ) ++
    match outcome (cycle σ) with
    | Return _ => emitted (loop n (final (cycle σ)))
    | Raise _ => []
    end.
Proof.
  assert (∃ body, emitted (cycle σ) = body ++ [EvSleep RETRY_PERIOD] ∧
                  sleeps_of body = []) as (body & Hbody & Hsl).
  { rewrite cycle_run. cbv zeta. pose proof (cycle_try_sleeps σ) as Ht.
    destruct (outcome (cycle_try σ)) as [[]|e]; cbn [emitted];
      [by eexists; split; [reflexivity|]|].
    destruct (is_Exception e); cbn [emitted];
      [|by eexists; split; [reflexivity|]].
    eexists. split; [reflexivity|].
    destruct (cycle_except_step e (final (cycle_try σ))) as (_ & Hsl & _).
    by rewrite sleeps_of_app, Ht, Hsl. }
  split; [by eauto|]. split.
  { rewrite Hbody. apply last_snoc. }
  rewrite loop_succ.
  destruct (outcome (cycle σ)); cbn [emitted]; [done|].
  by rewrite app_nil_r.
Qed.

(** C1, as amended: an exception that [send_message] raises inside the
    [try] of the loop is caught by the loop's own handler, which builds
    the error report from it and runs from the state the [try] left,
    before the sleep; an exception that [send_message] raises inside
    that handler, where the report is sent because it differs from
    [last_message], is caught by nothing and leaves the iteration. *)
Theorem notifier_failure_handling (σ : state) (msg : string) :
  outcome (cycle_try σ) = Raise (TelegramError msg) →
  let σ' := final (cycle_try σ) in
  let handled := cycle_except (TelegramError msg) σ' in
  emitted (cycle σ) =
    (emitted (cycle_try σ) ++ emitted handled) ++ [EvSleep RETRY_PERIOD] ∧
  final (cycle σ) = final handled ∧
  outcome (cycle σ) = outcome handled ∧
  EvLog ERROR (error_report (TelegramError msg)) ∈ emitted (cycle σ) ∧
  (error_report (TelegramError msg) = last_message σ' →
   outcome (cycle σ) = Return tt) ∧
  (error_report (TelegramError msg) ≠ last_message σ' →
   outcome (cycle σ) =
     outcome (send_message (error_report (TelegramError msg)) σ')).
Proof.
  intros Htry σ' handled. rewrite cycle_run. cbv zeta.
  rewrite Htry. cbn [is_Exception].
  fold σ' handled. cbn [emitted final outcome].
  repeat split.
  - subst handled. rewrite cycle_except_run.
    destruct (String.eqb _ _); cbn [emitted];
      rewrite !elem_of_app, !elem_of_cons; auto.
  - intros Heq. subst handled. rewrite cycle_except_run.
    by apply String.eqb_eq in Heq as ->.
  - intros Hne. subst handled. rewrite cycle_except_run.
    by apply String.eqb_neq in Hne as ->.
Qed.

(** C2: in every iteration a text is passed to the chat API only when
    it differs from [last_message], be it the message of the [try] or
    the error report of the handler; and over any number of iterations
    no text is delivered twice in a row. *)
Theorem deduplication (σ : state) (n : nat) :
  (∀ text delivered,
     (text, delivered) ∈ sends_of (emitted (cycle σ)) →
     text ≠ last_message σ) ∧
  (∀ message, outcome (fetch_and_format σ) = Return message →
     message = last_message σ → sends_of (emitted (cycle σ)) = []) ∧
  (∀ error, outcome (fetch_and_format σ) = Raise error →
     error_report error = last_message σ →
     sends_of (emitted (cycle σ)) = []) ∧
  no_repeat (delivered_texts (emitted (loop n σ))).
Proof.
  split; [|split; [|split]].
  - intros text delivered.
    destruct (cycle_summary σ) as
      (_ & [(-> & Hl)|[(m & -> & Hne & Hl & Ho)|[(m & -> & Hne & Hl)
           |[(m & e & -> & Hne & Hne' & _ & Hl & Ho)
            |(m & e & -> & Hne & Hne' & _ & Hl & _)]]]]);
      rewrite ?elem_of_cons, elem_of_nil; intros H;
      destruct_or?; simplify_eq; done.
  - intros message Hout ->.
    rewrite cycle_run, cycle_try_split, bind_run, Hout.
    pose proof (fetch_and_format_facts σ) as (Hev & Hlast & _).
    rewrite emitted_get_api_answer in Hev.
    rewrite notify_new_run, Hlast, String.eqb_refl.
    cbn [emitted outcome]. by rewrite !sends_of_app, Hev.
  - intros error Hout Heq.
    rewrite cycle_run, cycle_try_split, bind_run, Hout.
    pose proof (fetch_and_format_facts σ) as (Hev & Hlast & _).
    rewrite emitted_get_api_answer in Hev.
    cbn [emitted final outcome].
    destruct (is_Exception error); cbn [emitted];
      rewrite ?cycle_except_run, ?Hlast, ?Heq, ?String.eqb_refl;
      cbn [emitted]; by rewrite !sends_of_app, Hev.
  - apply loop_delivered.
Qed.

(** What [check_response] raises is an [Exception]. *)
Lemma check_response_raises response e :
  check_response response = Raise e → is_Exception e = true.
Proof.
  unfold check_response. destruct response as [| | | | |d]; try by intros [= <-].
  destruct (_ || _); [by intros [= <-]|].
  destruct (default JNull (d !! "homeworks")); by intros [= <-].
Qed.

(** The first half on a dict that fails validation: the cursor is
    assigned from the dict before [check_response] raises. *)
Lemma fetch_and_format_invalid σ reason text d e :
  requests_get (requests_made σ) (from_date_of (current_timestamp σ) σ) =
    Response HTTPStatus_OK reason text (Return (JDict d)) →
  check_response (JDict d) = Raise e →
  outcome (fetch_and_format σ) = Raise e ∧
  current_timestamp (final (fetch_and_format σ)) =
    default (JNum (clock (clock_reads
               (if truthy (current_timestamp σ) then σ else after_clock σ))))
            (d !! "current_date").
Proof.
  intros Hreply Hcheck.
  unfold fetch_and_format, read_state, mbind, M_bind, mret, M_ret. simpl.
  rewrite get_api_answer_run. simpl. rewrite Hreply.
  unfold api_outcome. simpl. rewrite Hcheck. simpl.
  by destruct (truthy (current_timestamp σ)).
Qed.

(** C9: when the API answers with a dict that has [current_date] and
    fails validation, the cursor already holds that [current_date] when
    [check_response] raises and the handler reports the error; it still
    holds it when the iteration ends, and the request of the next
    iteration is made for that cursor, which [get_api_answer] sends as
    [from_date] unless it is falsy. *)
Theorem cursor_advances_before_validation
    (σ : state) (reason text : string) (d : gmap string json)
    (date : json) (e : exn) :
  requests_get (requests_made σ) (from_date_of (current_timestamp σ) σ) =
    Response HTTPStatus_OK reason text (Return (JDict d)) →
  d !! "current_date" = Some date →
  check_response (JDict d) = Raise e →
  let σ' := final (cycle_try σ) in
  outcome (cycle_try σ) = Raise e ∧
  current_timestamp σ' = date ∧
  emitted (cycle σ) =
    (emitted (cycle_try σ) ++ emitted (cycle_except e σ'))
      ++ [EvSleep RETRY_PERIOD] ∧
  EvLog ERROR (error_report e) ∈ emitted (cycle_except e σ') ∧
  current_timestamp (final (cycle σ)) = date ∧
  requests_of (emitted (cycle (final (cycle σ)))) =
    [from_date_of date (final (cycle σ))] ∧
  (truthy date = true →
   requests_of (emitted (cycle (final (cycle σ)))) = [date]).
Proof.
  intros Hreply Hdate Hcheck σ'.
  destruct (fetch_and_format_invalid σ reason text d e Hreply Hcheck)
    as [Hout Hcur].
  rewrite Hdate in Hcur. cbn [default] in Hcur.
  assert (outcome (cycle_try σ) = Raise e ∧
          final (cycle_try σ) = final (fetch_and_format σ)) as [Htry Hfin].
  { rewrite cycle_try_split, bind_run, Hout. done. }
  assert (current_timestamp σ' = date) as Hσ' by (subst σ'; by rewrite Hfin).
  assert (current_timestamp (final (cycle σ)) = date) as Hend.
  { rewrite cycle_run. cbv zeta. rewrite Htry.
    rewrite (check_response_raises _ _ Hcheck). cbn [final].
    destruct (cycle_except_step e (final (cycle_try σ))) as (-> & _).
    done. }
  split; [done|]. split; [done|]. split.
  { rewrite cycle_run. cbv zeta. rewrite Htry.
    by rewrite (check_response_raises _ _ Hcheck). }
  split.
  { rewrite cycle_except_run.
    destruct (String.eqb _ _); cbn [emitted]; rewrite elem_of_cons; auto. }
  split; [done|].
  destruct (cycle_summary (final (cycle σ))) as [Hreq _].
  rewrite Hend in Hreq. split; [done|].
  intros Htruthy. rewrite Hreq. unfold from_date_of. by rewrite Htruthy.
Qed.

(** C10: on both paths of an iteration [last_message] is assigned only
    after [send_message] returned: an iteration changes it only to a
    text that was delivered in that iteration, and when [send_message]
    raises, on either path, the variable has the value it had before the
    call.  A text whose sending failed is therefore not [last_message]
    when the iteration ends, and an iteration that produces a message
    different from [last_message] passes it to the chat API. *)
Theorem last_message_assigned_after_delivery (σ : state) :
  (last_message (final (cycle σ)) = last_message σ ∨
   (last_message (final (cycle σ)), true) ∈ sends_of (emitted (cycle σ))) ∧
  (∀ message e,
     outcome (send_message message σ) = Raise e →
     message ≠ last_message σ →
     outcome (notify_new message σ) = Raise e ∧
     last_message (final (notify_new message σ)) = last_message σ) ∧
  (∀ error e,
     outcome (send_message (error_report error) σ) = Raise e →
     error_report error ≠ last_message σ →
     outcome (cycle_except error σ) = Raise e ∧
     last_message (final (cycle_except error σ)) = last_message σ) ∧
  (∀ text,
     (text, false) ∈ sends_of (emitted (cycle σ)) →
     last_message (final (cycle σ)) ≠ text) ∧
  (∀ message,
     outcome (fetch_and_format σ) = Return message →
     message ≠ last_message σ →
     ∃ delivered, (message, delivered) ∈ sends_of (emitted (cycle σ))).
Proof.
  split; [|split; [|split; [|split]]].
  - destruct (cycle_summary σ) as
      (_ & [(-> & Hl)|[(m & -> & Hne & Hl & Ho)|[(m & -> & Hne & Hl)
           |[(m & e & -> & Hne & Hne' & _ & Hl & Ho)
            |(m & e & -> & Hne & Hne' & _ & Hl & _)]]]]);
      rewrite Hl; rewrite ?elem_of_cons; auto.
  - intros message e Hsend Hne. rewrite notify_new_run.
    apply String.eqb_neq in Hne as ->. cbn [final outcome].
    rewrite Hsend. split; [done|].
    destruct (send_message_step message σ) as (_ & _ & _ & ->). done.
  - intros error e Hsend Hne. rewrite cycle_except_run.
    apply String.eqb_neq in Hne as ->. cbn [final outcome].
    rewrite Hsend. split; [done|].
    destruct (send_message_step (error_report error) σ) as (_ & _ & _ & ->).
    done.
  - intros text.
    destruct (cycle_summary σ) as
      (_ & [(-> & Hl)|[(m & -> & Hne & Hl & Ho)|[(m & -> & Hne & Hl)
           |[(m & e & -> & Hne & Hne' & Hne'' & Hl & Ho)
            |(m & e & -> & Hne & Hne' & Hne'' & Hl & _)]]]]);
      rewrite Hl; rewrite ?elem_of_cons, elem_of_nil; intros H;
      destruct_or?; simplify_eq; done.
  - intros message Hout Hne.
    exists (returned (outcome (send_message message
                                 (final (fetch_and_format σ))))).
    apply sends_of_elem.
    rewrite cycle_run, cycle_try_split, bind_run, Hout. cbv zeta.
    pose proof (fetch_and_format_facts σ) as (_ & Hlast & _).
    assert (EvSend message
              (returned (outcome (send_message message
                                    (final (fetch_and_format σ)))))
            ∈ emitted (notify_new message (final (fetch_and_format σ))))
      as Hin.
    { rewrite notify_new_run, Hlast.
      apply String.eqb_neq in Hne as ->. cbn [emitted].
      apply sends_of_elem.
      destruct (send_message_step message (final (fetch_and_format σ)))
        as (-> & _). rewrite elem_of_cons. by left. }
    cbn [emitted final outcome].
    destruct (outcome (notify_new message _)) as [[]|e]; cbn [emitted].
    + rewrite !elem_of_app. auto.
    + destruct (is_Exception e); cbn [emitted]; rewrite !elem_of_app; auto.
Qed.

End LoopProperties.

(** ** The API client *)

Section ClientProperties.
Context `{interp : !Interpreter} `{world : !World}.

(** C7: a call of [get_api_answer] makes exactly one request.  When
    [requests.get] raises, when the status code is not 200, or when
    decoding the body raises, the call raises [WrongResponseCode] with
    the request parameters and the cause; when the status code is 200
    and the body decodes, the call returns the decoded body as it is. *)
Theorem get_api_answer_outcome (cursor : json) (σ : state) :
  let timestamp := from_date_of cursor σ in
  let reply := requests_get (requests_made σ) timestamp in
  let r := get_api_answer cursor σ in
  let text_of_failure :=
    format_request "API не возвращает код 200. Запрос: " timestamp in
  requests_of (emitted r) = [timestamp] ∧
  requests_made (final r) = S (requests_made σ) ∧
  (∀ e, reply = GetRaises e → is_Exception e = true →
        outcome r = Raise (WrongResponseCode text_of_failure (Some e))) ∧
  (∀ code reason text body,
     reply = Response code reason text body → code ≠ HTTPStatus_OK →
     ∃ inner, outcome r =
       Raise (WrongResponseCode text_of_failure
                (Some (WrongResponseCode inner None)))) ∧
  (∀ reason text e,
     reply = Response HTTPStatus_OK reason text (Raise e) →
     is_Exception e = true →
     outcome r = Raise (WrongResponseCode text_of_failure (Some e))) ∧
  (∀ reason text body,
     reply = Response HTTPStatus_OK reason text (Return body) →
     outcome r = Return body).
Proof.
  intros timestamp reply r text_of_failure. subst r.
  rewrite get_api_answer_run. cbv zeta. cbn [emitted final outcome].
  fold timestamp reply.
  split; [done|]. split; [by destruct (truthy cursor)|].
  unfold api_outcome. fold text_of_failure.
  split; [|split; [|split]].
  - intros e -> He. by rewrite He.
  - intros code reason text body -> Hcode.
    apply Z.eqb_neq in Hcode as ->. cbn [negb is_Exception]. eauto.
  - intros reason text e -> He. cbn. by rewrite He.
  - by intros reason text body ->.
Qed.

End ClientProperties.


(** * The properties at concrete inputs *)

(** C3, the claim as stated fails: a record without [homework_name]
    and with a status outside the known ones raises a key error, and a
    record whose status is a list raises a type error. *)
Lemma parse_status_unknown_status_counterexample :
  (nameless_record !! "status" = Some (JStr "lost") ∧
   ("lost" ∉ known_statuses) ∧
   @parse_status sample_interpreter (JDict nameless_record) =
     Raise (KeyError "Нет ключа homework_name в ответе")) ∧
  (list_status_record !! "status" = Some (JList []) ∧
   @parse_status sample_interpreter (JDict list_status_record) =
     Raise (TypeError "unhashable type: 'list'")).
Proof.
  repeat split; try reflexivity.
  unfold known_statuses. rewrite !elem_of_cons, elem_of_nil.
  intros [H|[H|[H|[]]]]; discriminate H.
Qed.

Lemma parse_status_unknown_status_witness :
  is_Some (lost_status_record !! "homework_name") ∧
  @parse_status sample_interpreter (JDict lost_status_record) =
    Raise (ValueError "Неизвестный статус - lost").
Proof.
  split; [by eexists|].
  apply (@parse_status_unknown_status sample_interpreter lost_status_record).
  - by eexists.
  - reflexivity.
  - intros s [= <-]. unfold known_statuses.
    rewrite !elem_of_cons, elem_of_nil.
    intros [H|[H|[H|[]]]]; discriminate H.
Defined.

Lemma check_response_returns_homeworks_witness :
  response_hw1 !! "homeworks" = Some (JList [JDict hw1_approved]) ∧
  check_response (JDict response_hw1) = Return [JDict hw1_approved].
Proof.
  split; [reflexivity|].
  apply check_response_returns_homeworks; [reflexivity|by eexists].
Defined.

Lemma check_response_missing_key_witness :
  response_no_homeworks !! "homeworks" = None ∧
  check_response (JDict response_no_homeworks) =
    Raise (EmptyResponseFromAPI "Нет ключа homeworks в ответе").
Proof.
  split; [reflexivity|].
  apply check_response_missing_key. left. reflexivity.
Defined.

(** C6, the claim as stated fails: the name of the record is the
    verdict text of [reviewing], its status is [approved], and the
    returned text contains the verdict text of [reviewing] beside that
    of [approved]. *)
Lemma parse_status_other_verdict_in_name :
  verdict_named_record !! "homework_name" =
    Some (JStr "Работа взята на проверку ревьюером.") ∧
  verdict_named_record !! "status" = Some (JStr "approved") ∧
  HOMEWORK_VERDICTS !! "reviewing" =
    Some "Работа взята на проверку ревьюером." ∧
  ∃ message,
    @parse_status sample_interpreter (JDict verdict_named_record) =
      Return message ∧
    is_substring "Работа взята на проверку ревьюером." message = true.
Proof.
  repeat split; try reflexivity.
  eexists. split; [reflexivity|]. vm_compute. reflexivity.
Qed.

Lemma parse_status_known_status_witness :
  "approved" ∈ known_statuses ∧
  ∃ verdict message,
    HOMEWORK_VERDICTS !! "approved" = Some verdict ∧
    @parse_status sample_interpreter (JDict hw1_approved) = Return message.
Proof.
  assert ("approved" ∈ known_statuses) as Hin
    by (unfold known_statuses; rewrite elem_of_cons; by left).
  split; [exact Hin|].
  destruct (@parse_status_known_status sample_interpreter hw1_approved
              (JStr "hw1") "approved" eq_refl eq_refl Hin)
    as (verdict & message & Hv & Hp & _).
  exists verdict, message. by split.
Defined.

(** The iteration in which the chat API times out once. *)
Lemma chat_fails_once_run :
  outcome (@cycle_try sample_interpreter world_chat_fails_once loop_entry) =
    Raise (TelegramError timed_out_text) ∧
  outcome (@cycle sample_interpreter world_chat_fails_once loop_entry) =
    Return tt ∧
  sends_of (emitted (@cycle sample_interpreter world_chat_fails_once
                       loop_entry)) =
    [("Статус не изменился", false);
     ("Сбой в работе программы: " +:+ timed_out_text, true)] ∧
  last_message (final (@cycle sample_interpreter world_chat_fails_once
                         loop_entry)) =
    "Сбой в работе программы: " +:+ timed_out_text.
Proof. vm_compute. done. Qed.

(** C1, the claim as stated fails: the chat API times out on the
    message of the [try]; [send_message] raises [TelegramError] out of
    the [try], the handler of the loop catches it, sends the error
    report, and the iteration returns. *)
Lemma notifier_failure_is_caught :
  outcome (@cycle_try sample_interpreter world_chat_fails_once loop_entry) =
    Raise (TelegramError timed_out_text) ∧
  outcome (@cycle sample_interpreter world_chat_fails_once loop_entry) =
    Return tt ∧
  sends_of (emitted (@cycle sample_interpreter world_chat_fails_once
                       loop_entry)) =
    [("Статус не изменился", false);
     ("Сбой в работе программы: " +:+ timed_out_text, true)].
Proof. vm_compute. done. Qed.

Lemma notifier_failure_handling_witness :
  outcome (@cycle_try sample_interpreter world_chat_fails_once loop_entry) =
    Raise (TelegramError timed_out_text) ∧
  outcome (@cycle sample_interpreter world_chat_fails_once loop_entry) =
    outcome (@cycle_except sample_interpreter world_chat_fails_once
               (TelegramError timed_out_text)
               (final (@cycle_try sample_interpreter world_chat_fails_once
                         loop_entry))).
Proof.
  assert (outcome (@cycle_try sample_interpreter world_chat_fails_once
                     loop_entry) = Raise (TelegramError timed_out_text))
    as Htry by (vm_compute; reflexivity).
  split; [exact Htry|].
  exact (proj1 (proj2 (proj2
    (@notifier_failure_handling sample_interpreter world_chat_fails_once
       loop_entry timed_out_text Htry)))).
Defined.

Lemma deduplication_witness :
  ("Статус не изменился", false)
    ∈ sends_of (emitted (@cycle sample_interpreter world_chat_fails_once
                           loop_entry)) ∧
  "Статус не изменился" ≠ last_message loop_entry.
Proof.
  assert (("Статус не изменился", false)
            ∈ sends_of (emitted (@cycle sample_interpreter
                                   world_chat_fails_once loop_entry)))
    as Hin
    by (rewrite (proj1 (proj2 (proj2 chat_fails_once_run)));
        rewrite elem_of_cons; by left).
  split; [exact Hin|].
  exact (proj1 (@deduplication sample_interpreter world_chat_fails_once
                  loop_entry 1) _ _ Hin).
Defined.

Lemma get_api_answer_outcome_witness :
  @requests_get world_unavailable 0 (JNum 1000) =
    Response 503 "Service Unavailable" "try later" (Return JNull) ∧
  ∃ inner,
    outcome (@get_api_answer sample_interpreter world_unavailable
               (JNum 1000) loop_entry) =
    Raise (WrongResponseCode
             (@format_request sample_interpreter world_unavailable
                "API не возвращает код 200. Запрос: " (JNum 1000))
             (Some (WrongResponseCode inner None))).
Proof.
  split; [reflexivity|].
  refine (proj1 (proj2 (proj2 (proj2
    (@get_api_answer_outcome sample_interpreter world_unavailable
       (JNum 1000) loop_entry)))) 503 "Service Unavailable" "try later"
       (Return JNull) eq_refl _).
  discriminate.
Defined.

Lemma cursor_advances_before_validation_witness :
  check_response (JDict response_no_homeworks) =
    Raise (EmptyResponseFromAPI "Нет ключа homeworks в ответе") ∧
  current_timestamp loop_entry = JNum 1000 ∧
  current_timestamp
    (final (@cycle_try sample_interpreter world_no_homeworks loop_entry)) =
    JNum 3000.
Proof.
  split; [reflexivity|]. split; [reflexivity|].
  exact (proj1 (proj2
    (@cursor_advances_before_validation sample_interpreter world_no_homeworks
       loop_entry "OK" "{...}" response_no_homeworks (JNum 3000)
       (EmptyResponseFromAPI "Нет ключа homeworks в ответе")
       eq_refl eq_refl eq_refl))).
Defined.

Lemma last_message_assigned_after_delivery_witness :
  ("Статус не изменился", false)
    ∈ sends_of (emitted (@cycle sample_interpreter world_chat_fails_once
                           loop_entry)) ∧
  last_message (final (@cycle sample_interpreter world_chat_fails_once
                         loop_entry)) ≠ "Статус не изменился".
Proof.
  assert (("Статус не изменился", false)
            ∈ sends_of (emitted (@cycle sample_interpreter
                                   world_chat_fails_once loop_entry)))
    as Hin
    by (rewrite (proj1 (proj2 (proj2 chat_fails_once_run)));
        rewrite elem_of_cons; by left).
  split; [exact Hin|].
  exact (proj1 (proj2 (proj2 (proj2
    (@last_message_assigned_after_delivery sample_interpreter
       world_chat_fails_once loop_entry)))) _ Hin).
Defined.

(** * Further properties of the code *)

(** ** The validator and the formatter *)

Section MorePureProperties.
Context `{interp : !Interpreter}.

(** X1: [check_response] returns a list exactly for a dict that has both
    keys and a list under [homeworks], and then it returns that list. *)
Theorem check_response_returns_iff (response : json) (homeworks : list json) :
  check_response response = Return homeworks ↔
  ∃ d, response = JDict d ∧
       d !! "homeworks" = Some (JList homeworks) ∧
       is_Some (d !! "current_date").
Proof.
  split.
  - unfold check_response. destruct response as [| | | | |d]; try done.
    destruct (d !! "homeworks") as [hw|] eqn:Hh; [|done].
    destruct (d !! "current_date") as [date|] eqn:Hd; [|done].
    cbn. destruct hw; try done. intros [= ->]. eauto.
  - intros (d & -> & Hh & [date Hd]). unfold check_response.
    by rewrite Hh, Hd.
Qed.

(** X2: [check_response] raises a type error exactly when the response is
    not a dict, or is a dict with both keys whose [homeworks] is not a
    list: a missing key is reported before the type of [homeworks] is
    looked at. *)
Theorem check_response_type_error (response : json) :
  (∃ msg, check_response response = Raise (TypeError msg)) ↔
  (∀ d, response ≠ JDict d) ∨
  (∃ d hw, response = JDict d ∧
           d !! "homeworks" = Some hw ∧ (∀ l, hw ≠ JList l) ∧
           is_Some (d !! "current_date")).
Proof.
  split.
  - intros [msg H]. unfold check_response in H.
    destruct response as [| | | | |d]; try by left.
    right. destruct (d !! "homeworks") as [hw|] eqn:Hh; [|done].
    destruct (d !! "current_date") as [date|] eqn:Hd; [|done].
    cbn in H. exists d, hw. repeat split; eauto.
    intros l ->. done.
  - intros [Hnd|(d & hw & -> & Hh & Hnl & [date Hd])].
    + unfold check_response. destruct response; eauto. by destruct (Hnd d).
    + unfold check_response. rewrite Hh, Hd. cbn.
      destruct hw; eauto. by destruct (Hnl l).
Qed.

(** X3: a record without the key [homework_name] is refused with a key
    error, whatever its status, a known one included. *)
Theorem parse_status_missing_name (homework : gmap string json) :
  homework !! "homework_name" = None →
  parse_status (JDict homework) =
    Raise (KeyError "Нет ключа homework_name в ответе").
Proof.
  intros Hname. rewrite parse_status_dict.
  rewrite bool_decide_eq_false_2; [done|].
  rewrite Hname. by intros [? ?].
Qed.

(** X4: [parse_status] returns a text for a dict exactly when the dict has
    a name and its status is a string of the table; the text is then
    the template filled with the name and the verdict of the table. *)
Theorem parse_status_returns_iff
    (homework : gmap string json) (message : string) :
  parse_status (JDict homework) = Return message ↔
  ∃ name status verdict,
    homework !! "homework_name" = Some name ∧
    homework !! "status" = Some (JStr status) ∧
    HOMEWORK_VERDICTS !! status = Some verdict ∧
    message = status_template (py_str name) verdict.
Proof.
  rewrite parse_status_dict. split.
  - case_bool_decide as Hname; [|done]. destruct Hname as [name Hname].
    rewrite Hname. cbn [default].
    destruct (homework !! "status") as [status|] eqn:Hs; [|done].
    destruct status as [| | |s| |]; try done. cbn.
    destruct (HOMEWORK_VERDICTS !! s) as [verdict|] eqn:Hv; [|done].
    intros [= <-]. eauto 10.
  - intros (name & status & verdict & Hname & Hs & Hv & ->).
    rewrite bool_decide_eq_true_2 by (rewrite Hname; eauto).
    rewrite Hname, Hs. cbn. by rewrite Hv.
Qed.

(** X5: only a dict is formatted: on any other value [parse_status] raises,
    a type error for [None], a boolean or a number, and for a string or
    a list a key error when [homework_name] is not in it and an
    attribute error when it is. *)
Theorem parse_status_not_dict (homework : json) :
  (∀ d, homework ≠ JDict d) →
  match homework with
  | JStr s =>
      if is_substring "homework_name" s
      then ∃ msg, parse_status homework = Raise (AttributeError msg)
      else parse_status homework =
             Raise (KeyError "Нет ключа homework_name в ответе")
  | JList l =>
      if existsb (eq_str "homework_name") l
      then ∃ msg, parse_status homework = Raise (AttributeError msg)
      else parse_status homework =
             Raise (KeyError "Нет ключа homework_name в ответе")
  | _ => ∃ msg, parse_status homework = Raise (TypeError msg)
  end.
Proof.
  intros Hnd. unfold parse_status.
  destruct homework as [|b|z|s|l|d]; cbn [py_in result_bind]; eauto.
  - destruct (is_substring _ _); cbn; eauto.
  - destruct (existsb _ _); cbn; eauto.
  - by destruct (Hnd d).
Qed.

End MorePureProperties.

Lemma check_response_type_error_witness :
  ∃ msg, check_response (JList []) = Raise (TypeError msg).
Proof.
  apply check_response_type_error. left. intros d. discriminate.
Defined.

Lemma check_response_returns_iff_witness :
  ∃ d, JDict response_empty = JDict d ∧
       d !! "homeworks" = Some (JList []) ∧
       is_Some (d !! "current_date").
Proof.
  apply (proj1 (check_response_returns_iff (JDict response_empty) [])).
  reflexivity.
Defined.

Lemma parse_status_missing_name_witness :
  nameless_record !! "homework_name" = None ∧
  @parse_status sample_interpreter (JDict nameless_record) =
    Raise (KeyError "Нет ключа homework_name в ответе").
Proof.
  split; [reflexivity|].
  by apply (@parse_status_missing_name sample_interpreter).
Defined.

Lemma parse_status_returns_iff_witness :
  ∃ name status verdict,
    hw1_approved !! "homework_name" = Some name ∧
    hw1_approved !! "status" = Some (JStr status) ∧
    HOMEWORK_VERDICTS !! status = Some verdict ∧
    status_template "hw1"
      "Работа проверена: ревьюеру всё понравилось. Ура!" =
    status_template (@py_str sample_interpreter name) verdict.
Proof.
  apply (proj1 (@parse_status_returns_iff sample_interpreter hw1_approved _)).
  reflexivity.
Defined.

Lemma parse_status_not_dict_witness :
  @parse_status sample_interpreter (JStr "hw1") =
    Raise (KeyError "Нет ключа homework_name в ответе").
Proof.
  apply (@parse_status_not_dict sample_interpreter (JStr "hw1")).
  intros d. discriminate.
Defined.

(** ** The notifier and the API client *)

Section MoreEffectProperties.
Context `{interp : !Interpreter} `{world : !World}.

(** X6: [send_message] passes the text to the chat API exactly once and
    returns exactly when it was delivered.  An error of the [telegram]
    library is logged and raised again as [TelegramError] with the text
    of the error appended to a fixed prefix; any other exception passes
    through as it is. *)
Theorem send_message_outcome (message : string) (σ : state) :
  let r := send_message message σ in
  let answer := bot_send_message (sends_made σ) message in
  sends_of (emitted r) = [(message, returned (outcome r))] ∧
  sends_made (final r) = S (sends_made σ) ∧
  (answer = None ↔ outcome r = Return tt) ∧
  (∀ e, answer = Some e → is_telegram_error e = true →
        let error_text :=
          "Ошибка отправки сообщения в Telegram: " +:+ py_str_exn e in
        outcome r = Raise (TelegramError error_text) ∧
        EvLog ERROR error_text ∈ emitted r) ∧
  (∀ e, answer = Some e → is_telegram_error e = false →
        outcome r = Raise e).
Proof.
  intros r answer. subst r answer. rewrite send_message_run.
  destruct (bot_send_message (sends_made σ) message) as [e|].
  - destruct (is_telegram_error e) eqn:He; cbn [emitted final outcome];
      (split; [done|]); (split; [done|]); (split; [by split|]); split;
      intros e' [= <-] He'; try congruence.
    cbv zeta. split; [done|]. rewrite !elem_of_cons. auto.
  - cbn [emitted final outcome].
    split; [done|]. split; [done|]. split; [done|]. split; intros e' [=].
Qed.

(** X7: the [from_date] of the request is the cursor when the cursor is
    truthy; for a falsy cursor (zero, [None], an empty text) it is the
    time read from the clock, which is read only in that case. *)
Theorem get_api_answer_from_date (cursor : json) (σ : state) :
  let r := get_api_answer cursor σ in
  (truthy cursor = true →
   requests_of (emitted r) = [cursor] ∧
   clock_reads (final r) = clock_reads σ) ∧
  (truthy cursor = false →
   requests_of (emitted r) = [JNum (clock (clock_reads σ))] ∧
   clock_reads (final r) = S (clock_reads σ)).
Proof.
  intros r. subst r. rewrite get_api_answer_run. cbv zeta.
  cbn [emitted final]. unfold from_date_of.
  split; intros ->; done.
Qed.

(** X8: [get_api_answer] returns a body only when the API answered 200 and
    the body decoded; and an [Exception] it raises is always a
    [WrongResponseCode] that carries a cause. *)
Theorem get_api_answer_returns_iff (cursor : json) (σ : state) :
  let timestamp := from_date_of cursor σ in
  let reply := requests_get (requests_made σ) timestamp in
  let r := get_api_answer cursor σ in
  (∀ body, outcome r = Return body ↔
           ∃ reason text,
             reply = Response HTTPStatus_OK reason text (Return body)) ∧
  (∀ e, outcome r = Raise e → is_Exception e = true →
        ∃ msg cause, e = WrongResponseCode msg (Some cause)).
Proof.
  intros timestamp reply r. subst r.
  rewrite get_api_answer_run. cbv zeta. cbn [outcome].
  fold timestamp reply. unfold api_outcome.
  destruct reply as [e0|code reason text body].
  - split.
    + intros body. split.
      * by destruct (is_Exception e0).
      * by intros (? & ? & ?).
    + intros e. destruct (is_Exception e0) eqn:He0.
      * intros [= <-]. eauto.
      * intros [= <-]. congruence.
  - destruct (Z.eqb_spec code HTTPStatus_OK) as [->|Hcode]; cbn [negb].
    + destruct body as [j|e0].
      * split; [|done]. intros body. split.
        -- intros [= <-]. eauto.
        -- by intros (? & ? & [= _ _ <-]).
      * split.
        -- intros body. split.
           ++ by destruct (is_Exception e0).
           ++ by intros (? & ? & ?).
        -- intros e. destruct (is_Exception e0) eqn:He0.
           ++ intros [= <-]. eauto.
           ++ intros [= <-]. congruence.
    + cbn [is_Exception]. split.
      * intros j. split; [done|]. intros (? & ? & [= ? ? ?]). done.
      * intros e [= <-]. eauto.
Qed.

End MoreEffectProperties.

Lemma send_message_outcome_witness :
  @bot_send_message world_chat_fails_once (sends_made loop_entry)
     "Статус не изменился" =
    Some (telegram_error_TelegramError "Timed out") ∧
  outcome (@send_message sample_interpreter world_chat_fails_once
             "Статус не изменился" loop_entry) =
    Raise (TelegramError timed_out_text).
Proof.
  split; [reflexivity|].
  exact (proj1 (proj1 (proj2 (proj2 (proj2
    (@send_message_outcome sample_interpreter world_chat_fails_once
       "Статус не изменился" loop_entry))))
    (telegram_error_TelegramError "Timed out") eq_refl eq_refl)).
Defined.

Lemma get_api_answer_from_date_witness :
  truthy JNull = false ∧
  requests_of (emitted (@get_api_answer sample_interpreter world_hw1
                          JNull loop_entry)) = [JNum 501].
Proof.
  split; [reflexivity|].
  exact (proj1 (proj2
    (@get_api_answer_from_date sample_interpreter world_hw1 JNull loop_entry)
    eq_refl)).
Defined.

Lemma get_api_answer_returns_iff_witness :
  outcome (@get_api_answer sample_interpreter world_hw1 (JNum 1000)
             loop_entry) = Return (JDict response_hw1).
Proof.
  apply (proj2 (proj1
    (@get_api_answer_returns_iff sample_interpreter world_hw1 (JNum 1000)
       loop_entry) (JDict response_hw1))).
  by exists "OK", "{...}".
Defined.


(** ** The entry point *)

Section MainProperties.
Context `{interp : !Interpreter} `{world : !World}.

Lemma check_tokens_run σ :
  check_tokens σ =
  {| emitted := [EvLog INFO "Проверка наличия всех токенов"];
     final := σ;
     outcome := Return (forallb token_present
                          [PRACTICUM_TOKEN; TELEGRAM_TOKEN; TELEGRAM_CHAT_ID]) |}.
Proof. reflexivity. Qed.

Lemma new_bot_run σ :
  new_bot σ =
  {| emitted := [];
     final := σ;
     outcome := match telegram_Bot TELEGRAM_TOKEN with
                | None => Return tt
                | Some e => Raise e
                end |}.
Proof. unfold new_bot. by destruct (telegram_Bot TELEGRAM_TOKEN). Qed.

(** [main] with all tokens present and a bot that is built: the start
    message, then the loop. *)
Lemma main_run n σ :
  forallb token_present [PRACTICUM_TOKEN; TELEGRAM_TOKEN; TELEGRAM_CHAT_ID]
    = true →
  telegram_Bot TELEGRAM_TOKEN = None →
  main n σ =
  let σ1 := with_current_timestamp (JNum (clock (clock_reads σ)))
              (after_clock σ) in
  let s := send_message "Бот запущен" σ1 in
  match outcome s with
  | Raise e =>
      {| emitted := EvLog INFO "Проверка наличия всех токенов" :: emitted s;
         final := final s;
         outcome := Raise e |}
  | Return _ =>
      let l := loop n (with_last_message EmptyString (final s)) in
      {| emitted := EvLog INFO "Проверка наличия всех токенов"
                    :: emitted s ++ EvLog INFO "Бот запущен" :: emitted l;
         final := final l;
         outcome := outcome l |}
  end.
Proof.
  intros Htokens Hbot. unfold main.
  rewrite bind_run, check_tokens_run. cbn [emitted final outcome].
  rewrite Htokens. cbn [negb].
  rewrite bind_run, new_bot_run, Hbot. cbn [emitted final outcome app].
  rewrite bind_run. cbn [time_time emitted final outcome].
  rewrite bind_run.
  cbn [set_current_timestamp write_state emitted final outcome].
  fold (after_clock σ).
  fold (with_current_timestamp (JNum (clock (clock_reads σ))) (after_clock σ)).
  cbv zeta.
  generalize (with_current_timestamp (JNum (clock (clock_reads σ)))
                (after_clock σ)). intros σ1.
  rewrite bind_run.
  destruct (send_message "Бот запущен" σ1) as [evs σ2 [[]|e]];
    cbn [emitted final outcome]; [|done].
  rewrite bind_run. cbn [logging emit emitted final outcome].
  rewrite bind_run. cbn [set_last_message write_state emitted final outcome].
  fold (with_last_message EmptyString σ2).
  generalize (loop n (with_last_message EmptyString σ2)). intros l.
  cbn [app]. done.
Qed.

(** X9: when one of the three tokens is unset or empty, [main] logs the
    critical message and leaves through [sys.exit] with that message:
    it makes no request, sends nothing and does not sleep, however many
    iterations it was given. *)
Theorem main_missing_token (iterations : nat) (σ : state) :
  forallb token_present [PRACTICUM_TOKEN; TELEGRAM_TOKEN; TELEGRAM_CHAT_ID]
    = false →
  outcome (main iterations σ) =
    Raise (SystemExit "Токен отсутствует. Бот остановлен!") ∧
  emitted (main iterations σ) =
    [EvLog INFO "Проверка наличия всех токенов";
     EvLog CRITICAL "Токен отсутствует. Бот остановлен!"] ∧
  final (main iterations σ) = σ.
Proof.
  intros Htokens. unfold main.
  rewrite bind_run, check_tokens_run. cbn [emitted final outcome].
  rewrite Htokens. done.
Qed.

(** X10: when the bot was built and the start message cannot be sent,
    [main] ends with the exception of [send_message] before the loop is
    entered: the chat API was called once, no request was made and
    nothing slept. *)
Theorem main_startup_failure (iterations : nat) (σ : state) (e : exn) :
  forallb token_present [PRACTICUM_TOKEN; TELEGRAM_TOKEN; TELEGRAM_CHAT_ID]
    = true →
  telegram_Bot TELEGRAM_TOKEN = None →
  bot_send_message (sends_made σ) "Бот запущен" = Some e →
  outcome (main iterations σ) =
    Raise (if is_telegram_error e then
             TelegramError ("Ошибка отправки сообщения в Telegram: "
                            +:+ py_str_exn e)
           else e) ∧
  sends_of (emitted (main iterations σ)) = [("Бот запущен", false)] ∧
  requests_of (emitted (main iterations σ)) = [] ∧
  sleeps_of (emitted (main iterations σ)) = [].
Proof.
  intros Htokens Hbot Hsend. rewrite (main_run _ _ Htokens Hbot). cbv zeta.
  rewrite send_message_run.
  cbn [sends_made with_current_timestamp after_clock]. rewrite Hsend.
  by destruct (is_telegram_error e).
Qed.

(** X11: when the bot was built and the start message is delivered,
    [main] enters the loop with the time of the start as cursor and the
    empty text as [last_message]: what it does from then on is what the
    loop does from that state, and the start message is the first text
    delivered. *)
Theorem main_enters_loop (iterations : nat) (σ : state) :
  forallb token_present [PRACTICUM_TOKEN; TELEGRAM_TOKEN; TELEGRAM_CHAT_ID]
    = true →
  telegram_Bot TELEGRAM_TOKEN = None →
  bot_send_message (sends_made σ) "Бот запущен" = None →
  let entry :=
    {| current_timestamp := JNum (clock (clock_reads σ));
       last_message := EmptyString;
       clock_reads := S (clock_reads σ);
       requests_made := requests_made σ;
       sends_made := S (sends_made σ) |} in
  outcome (main iterations σ) = outcome (loop iterations entry) ∧
  final (main iterations σ) = final (loop iterations entry) ∧
  sends_of (emitted (main iterations σ)) =
    ("Бот запущен", true) :: sends_of (emitted (loop iterations entry)) ∧
  requests_of (emitted (main iterations σ)) =
    requests_of (emitted (loop iterations entry)) ∧
  sleeps_of (emitted (main iterations σ)) =
    sleeps_of (emitted (loop iterations entry)).
Proof.
  intros Htokens Hbot Hsend entry.
  rewrite (main_run _ _ Htokens Hbot). cbv zeta.
  rewrite send_message_run.
  cbn [sends_made with_current_timestamp after_clock]. rewrite Hsend.
  cbn [emitted final outcome].
  change (with_last_message EmptyString _) with entry.
  repeat split; cbn [sends_of requests_of sleeps_of app];
    by rewrite ?sends_of_app, ?requests_of_app, ?sleeps_of_app.
Qed.

(** X18: when the tokens are present and the constructor of the bot
    raises, as it does for a malformed token, [main] ends with that
    exception before anything else happens: the clock is not read,
    nothing is sent, no request is made and nothing sleeps. *)
Theorem main_bot_not_built (iterations : nat) (σ : state) (e : exn) :
  forallb token_present [PRACTICUM_TOKEN; TELEGRAM_TOKEN; TELEGRAM_CHAT_ID]
    = true →
  telegram_Bot TELEGRAM_TOKEN = Some e →
  outcome (main iterations σ) = Raise e ∧
  emitted (main iterations σ) =
    [EvLog INFO "Проверка наличия всех токенов"] ∧
  final (main iterations σ) = σ.
Proof.
  intros Htokens Hbot. unfold main.
  rewrite bind_run, check_tokens_run. cbn [emitted final outcome].
  rewrite Htokens. cbn [negb].
  rewrite bind_run, new_bot_run, Hbot. done.
Qed.

End MainProperties.

Lemma main_missing_token_witness :
  @TELEGRAM_CHAT_ID world_no_chat_id = None ∧
  outcome (@main sample_interpreter world_no_chat_id 3 initial_state) =
    Raise (SystemExit "Токен отсутствует. Бот остановлен!").
Proof.
  split; [reflexivity|].
  exact (proj1 (@main_missing_token sample_interpreter world_no_chat_id
                  3 initial_state eq_refl)).
Defined.

Lemma main_startup_failure_witness :
  @bot_send_message world_chat_down 0 "Бот запущен" =
    Some (telegram_error_TelegramError "Timed out") ∧
  requests_of (emitted (@main sample_interpreter world_chat_down 3
                          initial_state)) = [].
Proof.
  split; [reflexivity|].
  exact (proj1 (proj2 (proj2
    (@main_startup_failure sample_interpreter world_chat_down 3 initial_state
       (telegram_error_TelegramError "Timed out") eq_refl eq_refl eq_refl)))).
Defined.

Lemma main_enters_loop_witness :
  @bot_send_message world_hw1 0 "Бот запущен" = None ∧
  requests_of (emitted (@main sample_interpreter world_hw1 2 initial_state)) =
    requests_of (emitted (@loop sample_interpreter world_hw1 2
      {| current_timestamp := JNum 500;
         last_message := EmptyString;
         clock_reads := 1;
         requests_made := 0;
         sends_made := 1 |})).
Proof.
  split; [reflexivity|].
  exact (proj1 (proj2 (proj2 (proj2
    (@main_enters_loop sample_interpreter world_hw1 2 initial_state
       eq_refl eq_refl eq_refl))))).
Defined.

Lemma main_bot_not_built_witness :
  @telegram_Bot world_bad_token (@TELEGRAM_TOKEN world_bad_token) =
    Some (telegram_error_TelegramError "Invalid token") ∧
  outcome (@main sample_interpreter world_bad_token 3 initial_state) =
    Raise (telegram_error_TelegramError "Invalid token").
Proof.
  split; [reflexivity|].
  exact (proj1 (@main_bot_not_built sample_interpreter world_bad_token
                  3 initial_state _ eq_refl eq_refl)).
Defined.


(** ** More on the poll loop *)

Section MoreLoopProperties.
Context `{interp : !Interpreter} `{world : !World}.

#[local] Arguments check_response : simpl never.
#[local] Arguments parse_status : simpl never.

(** The first half of the [try] by its steps: the outcome of the
    request, the lookup of [response.get], the rest on the response; the
    cursor is assigned once [response.get] was found. *)
Lemma fetch_and_format_outcome σ :
  outcome (fetch_and_format σ) =
    result_bind (outcome (get_api_answer (current_timestamp σ) σ))
      (λ response, result_bind (py_getattr_get response)
                     (λ _, message_of response)) ∧
  current_timestamp (final (fetch_and_format σ)) =
    match outcome (get_api_answer (current_timestamp σ) σ) with
    | Return (JDict d) =>
        default
          (JNum (clock (clock_reads
                          (final (get_api_answer (current_timestamp σ) σ)))))
          (d !! "current_date")
    | _ => current_timestamp σ
    end.
Proof.
  unfold fetch_and_format, message_of, read_state, mbind, M_bind, mret, M_ret.
  simpl. rewrite get_api_answer_run. simpl.
  destruct (api_outcome _ _) as [response|e]; simpl;
    [|by destruct (truthy (current_timestamp σ))].
  destruct response as [| | | | |d]; simpl;
    try by destruct (truthy (current_timestamp σ)).
  destruct (check_response (JDict d)) as [[|hw rest]|e]; simpl;
    by destruct (truthy (current_timestamp σ)).
Qed.

(** Sending and reporting leave the cursor alone. *)
Lemma cycle_cursor σ :
  current_timestamp (final (cycle σ)) =
  current_timestamp (final (fetch_and_format σ)).
Proof.
  rewrite cycle_run, cycle_try_split, bind_run. cbv zeta.
  destruct (outcome (fetch_and_format σ)) as [m|e]; cbn [outcome final].
  - destruct (notify_new_step m (final (fetch_and_format σ))) as (Hc & _).
    destruct (outcome (notify_new m _)) as [[]|e]; cbn [final]; [done|].
    destruct (is_Exception e); cbn [final]; [|done].
    destruct (cycle_except_step e (final (notify_new m
                (final (fetch_and_format σ))))) as (-> & _). done.
  - destruct (is_Exception e); cbn [final]; [|done].
    by destruct (cycle_except_step e (final (fetch_and_format σ))) as (-> & _).
Qed.

(** An iteration sleeps once, for the retry period. *)
Lemma cycle_sleeps σ : sleeps_of (emitted (cycle σ)) = [RETRY_PERIOD].
Proof.
  rewrite cycle_run. cbv zeta. pose proof (cycle_try_sleeps σ) as Ht.
  destruct (outcome (cycle_try σ)) as [[]|e]; cbn [emitted];
    [by rewrite sleeps_of_app, Ht|].
  destruct (is_Exception e); cbn [emitted];
    [|by rewrite sleeps_of_app, Ht].
  destruct (cycle_except_step e (final (cycle_try σ))) as (_ & Hsl & _).
  by rewrite !sleeps_of_app, Ht, Hsl.
Qed.

(** What [parse_status] raises is an [Exception]. *)
Lemma parse_status_raises homework e :
  parse_status homework = Raise e → is_Exception e = true.
Proof.
  unfold parse_status.
  destruct (py_in _ _) as [[|]|e0] eqn:Hin; cbn;
    [| by intros [= <-] |].
  - destruct homework; cbn; try (by intros [= <-]).
    destruct (in_verdicts _) as [[v|]|e1] eqn:Hv; cbn;
      try (by intros [= <-]).
    intros [= <-]. unfold in_verdicts in Hv.
    destruct (default JNull (d !! "status")); by inversion Hv.
  - intros [= <-]. by destruct homework; inversion Hin.
Qed.

(** In a world that raises only [Exception]s, so does the [try]. *)
Lemma cycle_try_raises σ e :
  raises_only_exceptions →
  outcome (cycle_try σ) = Raise e → is_Exception e = true.
Proof.
  intros (Hget & Hbody & Hchat).
  rewrite cycle_try_split, bind_run.
  destruct (fetch_and_format_outcome σ) as [Hout _].
  destruct (outcome (fetch_and_format σ)) as [m|e0]; cbn [outcome].
  - rewrite notify_new_run.
    destruct (String.eqb m _); cbn [outcome]; [done|].
    rewrite send_message_run.
    destruct (bot_send_message _ m) as [e0|] eqn:Hsend; [|done].
    destruct (is_telegram_error e0); cbn [outcome]; intros [= <-]; [done|].
    by eapply Hchat.
  - intros [= <-].
    rewrite get_api_answer_run in Hout. cbv zeta in Hout.
    cbn [outcome] in Hout. unfold api_outcome in Hout.
    destruct (requests_get _ _) as [e1|code reason text body] eqn:Hreply.
    + rewrite (Hget _ _ _ Hreply) in Hout. by inversion Hout.
    + destruct (negb (code =? HTTPStatus_OK)); cbn in Hout;
        [by inversion Hout|].
      destruct body as [response|e1].
      * cbn in Hout. destruct (py_getattr_get response) eqn:Hg; cbn in Hout.
        -- unfold message_of in Hout.
           destruct (check_response response) as [[|hw rest]|e1] eqn:Hc;
             cbn in Hout.
           ++ done.
           ++ symmetry in Hout. by eapply parse_status_raises.
           ++ inversion Hout; subst. by eapply check_response_raises.
        -- inversion Hout; subst. by destruct response; inversion Hg.
      * rewrite (Hbody _ _ _ _ _ _ Hreply) in Hout. by inversion Hout.
Qed.

(** X12: an iteration makes exactly one request to the homework API, calls
    the chat API at most twice, and at most one of the texts is
    delivered. *)
Theorem cycle_calls_bounded (σ : state) :
  requests_of (emitted (cycle σ)) = [from_date_of (current_timestamp σ) σ] ∧
  (length (sends_of (emitted (cycle σ))) ≤ 2)%nat ∧
  (length (delivered_texts (emitted (cycle σ))) ≤ 1)%nat.
Proof.
  split; [by destruct (cycle_summary σ)|]. split.
  - destruct (cycle_summary σ) as
      (_ & [(-> & _)|[(m & -> & _)|[(m & -> & _)
           |[(m & e & -> & _)|(m & e & -> & _)]]]]); cbn; lia.
  - destruct (cycle_delivered σ) as [[-> _]|(m & -> & _)]; cbn; lia.
Qed.

(** X13: the cursor after an iteration: the [current_date] of the response
    when the API returned a dict that has one, the time read from the
    clock when the dict has none, and the cursor as it was when the
    request failed or the response is no dict; what validation,
    formatting and sending did afterwards does not matter. *)
Theorem cursor_after_cycle (σ : state) :
  current_timestamp (final (cycle σ)) =
  match outcome (get_api_answer (current_timestamp σ) σ) with
  | Return (JDict d) =>
      default
        (JNum (clock (clock_reads
                        (final (get_api_answer (current_timestamp σ) σ)))))
        (d !! "current_date")
  | _ => current_timestamp σ
  end.
Proof.
  rewrite cycle_cursor. by destruct (fetch_and_format_outcome σ).
Qed.

(** X14: in a world that raises only [Exception]s, the one way an exception
    leaves an iteration is a failed sending of the error report: then
    the last call to the chat API is that of a report which differs
    from [last_message] and was not delivered.  Failures of the request,
    the validation, the formatting and of sending the message of the
    [try] stay inside. *)
Theorem cycle_raises_only_from_report (σ : state) (e : exn) :
  raises_only_exceptions →
  outcome (cycle σ) = Raise e →
  ∃ error,
    outcome (cycle_try σ) = Raise error ∧
    last (sends_of (emitted (cycle σ))) = Some (error_report error, false).
Proof.
  intros Hworld. rewrite cycle_run. cbv zeta.
  destruct (outcome (cycle_try σ)) as [[]|error] eqn:Htry;
    cbn [outcome emitted]; [done|].
  rewrite (cycle_try_raises _ _ Hworld Htry). cbn [outcome emitted].
  destruct (cycle_except_step error (final (cycle_try σ)))
    as (_ & _ & _ & [(_ & _ & _ & Ho)|[(_ & _ & _ & Ho)
                    |(_ & Hs & _ & e' & Ho)]]);
    rewrite Ho; try done.
  intros _. exists error. split; [done|].
  rewrite !sends_of_app, Hs. cbn [sends_of]. rewrite app_nil_r.
  apply last_snoc.
Qed.

(** X15: over the iterations of the loop there is one sleep of the retry
    period for every request made, never more requests than iterations,
    and as many as iterations when the loop was not left by an
    exception. *)
Theorem loop_requests_and_sleeps (n : nat) (σ : state) :
  sleeps_of (emitted (loop n σ)) =
    replicate (length (requests_of (emitted (loop n σ)))) RETRY_PERIOD ∧
  (length (requests_of (emitted (loop n σ))) ≤ n)%nat ∧
  (outcome (loop n σ) = Return tt →
   length (requests_of (emitted (loop n σ))) = n).
Proof.
  revert σ. induction n as [|n IH]; intros σ; [done|].
  rewrite loop_succ.
  destruct (IH (final (cycle σ))) as (Hsl & Hle & Heq).
  pose proof (cycle_sleeps σ) as Hcs.
  destruct (cycle_summary σ) as [Hcr _].
  destruct (outcome (cycle σ)) as [[]|e]; cbn [emitted outcome].
  - rewrite sleeps_of_app, requests_of_app, Hcs, Hcr, Hsl.
    cbn [length app replicate]. split; [done|]. split; [lia|].
    intros Ho. by rewrite Heq.
  - rewrite Hcs, Hcr. cbn. split; [done|]. split; [lia|done].
Qed.

End MoreLoopProperties.


(** ** The loop against a steady world *)

Section SteadyWorld.
Context `{interp : !Interpreter} `{world : !World}.

(** An iteration in which the chat API delivers and the first half of
    the [try] ended as [o]: it returns, the text is delivered unless it
    is [last_message], and it is [last_message] afterwards. *)
Lemma cycle_when_delivering σ o :
  chat_always_delivers →
  outcome (fetch_and_format σ) = o →
  match o with Return _ => True | Raise e => is_Exception e = true end →
  outcome (cycle σ) = Return tt ∧
  delivered_texts (emitted (cycle σ)) =
    (if String.eqb (text_of o) (last_message σ) then [] else [text_of o]) ∧
  last_message (final (cycle σ)) = text_of o.
Proof.
  intros Hchat Hout Hexc.
  pose proof (fetch_and_format_facts σ) as (Hev & Hlast & _).
  rewrite emitted_get_api_answer in Hev.
  rewrite cycle_run, cycle_try_split, bind_run, Hout. cbv zeta.
  destruct o as [m|e]; cbn [outcome emitted final text_of].
  - rewrite notify_new_run, Hlast.
    destruct (String.eqb_spec m (last_message σ)) as [Heq|Hne];
      cbn [outcome emitted final].
    + rewrite !delivered_texts_app, Hev. by rewrite Hlast.
    + rewrite send_message_run, Hchat. cbn [outcome emitted final].
      by rewrite !delivered_texts_app, Hev.
  - rewrite Hexc. rewrite cycle_except_run, Hlast.
    destruct (String.eqb_spec (error_report e) (last_message σ))
      as [Heq|Hne]; cbn [outcome emitted final].
    + rewrite !delivered_texts_app, Hev. by rewrite Hlast.
    + rewrite send_message_run, Hchat. cbn [outcome emitted final].
      by rewrite !delivered_texts_app, Hev.
Qed.

(** The loop while the first half of the [try] keeps ending the same
    way: it is never left, and the one text is delivered once, in the
    first iteration, unless it was [last_message] already. *)
Lemma loop_constant_outcome (P : state → Prop) (o : result string) :
  chat_always_delivers →
  (∀ σ, P σ → outcome (fetch_and_format σ) = o) →
  (∀ σ, P σ → P (final (cycle σ))) →
  match o with Return _ => True | Raise e => is_Exception e = true end →
  ∀ n σ, P σ →
    outcome (loop n σ) = Return tt ∧
    delivered_texts (emitted (loop (S n) σ)) =
      (if String.eqb (text_of o) (last_message σ) then [] else [text_of o]).
Proof.
  intros Hchat Hout Hpres Hexc.
  assert (∀ n σ, P σ →
            outcome (loop n σ) = Return tt ∧
            delivered_texts (emitted (loop n σ)) =
              match n with
              | O => []
              | S _ => if String.eqb (text_of o) (last_message σ)
                       then [] else [text_of o]
              end) as Hloop.
  { induction n as [|n IH]; intros σ Hσ; [done|].
    rewrite loop_succ.
    destruct (cycle_when_delivering σ o Hchat (Hout σ Hσ) Hexc)
      as (Ho & Hd & Hl).
    destruct (IH (final (cycle σ)) (Hpres σ Hσ)) as [Ho' Hd'].
    rewrite Ho. cbn [outcome emitted]. split; [done|].
    rewrite delivered_texts_app, Hd, Hd'.
    destruct n; [by rewrite app_nil_r|].
    by rewrite Hl, String.eqb_refl, app_nil_r. }
  intros n σ Hσ. split; [by apply Hloop|]. by apply (Hloop (S n)).
Qed.

(** X16: while the API keeps answering with the same valid response and the
    chat API delivers, the loop is never left and notifies once: the
    message of that response is delivered in the first iteration,
    unless it is the [last_message] the loop started with, and never
    again. *)
Theorem steady_response_notified_once
    (reason text : string) (d : gmap string json) (message : string)
    (n : nat) (σ : state) :
  chat_always_delivers →
  (∀ k from_date,
     requests_get k from_date =
       Response HTTPStatus_OK reason text (Return (JDict d))) →
  message_of (JDict d) = Return message →
  outcome (loop n σ) = Return tt ∧
  delivered_texts (emitted (loop (S n) σ)) =
    (if String.eqb message (last_message σ) then [] else [message]).
Proof.
  intros Hchat Hapi Hmsg.
  apply (loop_constant_outcome (λ _, True) (Return message)); try done.
  intros σ' _. destruct (fetch_and_format_outcome σ') as [-> _].
  rewrite get_api_answer_run. cbv zeta. cbn [outcome].
  rewrite Hapi. unfold api_outcome. cbn. done.
Qed.

(** X17: while the API keeps answering with a status other than 200, the
    chat API delivers and the cursor is truthy, the cursor stays, the
    loop is never left and the outage is reported once: the report of
    the [WrongResponseCode] is delivered in the first iteration, unless
    it is the [last_message] the loop started with, and never again. *)
Theorem persistent_outage_reported_once
    (code : Z) (reason text : string) (body : result json)
    (n : nat) (σ : state) :
  chat_always_delivers →
  (∀ k from_date,
     requests_get k from_date = Response code reason text body) →
  code ≠ HTTPStatus_OK →
  truthy (current_timestamp σ) = true →
  ∃ inner,
    let report :=
      error_report
        (WrongResponseCode
           (format_request "API не возвращает код 200. Запрос: "
              (current_timestamp σ))
           (Some (WrongResponseCode inner None))) in
    outcome (loop n σ) = Return tt ∧
    current_timestamp (final (loop n σ)) = current_timestamp σ ∧
    delivered_texts (emitted (loop (S n) σ)) =
      (if String.eqb report (last_message σ) then [] else [report]).
Proof.
  intros Hchat Hapi Hcode Htruthy.
  remember (current_timestamp σ) as c eqn:Hc. symmetry in Hc.
  eexists. cbv zeta.
  set (error := WrongResponseCode _ (Some (WrongResponseCode _ None))).
  assert (∀ σ', current_timestamp σ' = c →
                outcome (get_api_answer (current_timestamp σ') σ') =
                  Raise error) as Hget.
  { intros σ' Hσ'. rewrite get_api_answer_run. cbv zeta. cbn [outcome].
    unfold from_date_of. rewrite Hσ', Htruthy, Hapi. unfold api_outcome.
    apply Z.eqb_neq in Hcode as ->. cbn [negb is_Exception].
    subst error. reflexivity. }
  assert (∀ σ', current_timestamp σ' = c →
                current_timestamp (final (cycle σ')) = c) as Hpres.
  { intros σ' Hσ'. rewrite cycle_cursor.
    destruct (fetch_and_format_outcome σ') as [_ ->].
    by rewrite (Hget σ' Hσ'). }
  assert (∀ σ', current_timestamp σ' = c →
                outcome (fetch_and_format σ') = Raise error) as Hout.
  { intros σ' Hσ'. destruct (fetch_and_format_outcome σ') as [-> _].
    by rewrite (Hget σ' Hσ'). }
  destruct (loop_constant_outcome (λ σ', current_timestamp σ' = c)
              (Raise error) Hchat Hout Hpres eq_refl n σ Hc)
    as [Ho Hd].
  split; [done|]. split; [|done].
  clear Ho Hd. revert σ Hc.
  induction n as [|n IH]; intros σ Hc; [done|].
  rewrite loop_succ.
  destruct (cycle_when_delivering σ (Raise error) Hchat (Hout σ Hc) eq_refl)
    as (-> & _). cbn [final].
  apply IH. by apply Hpres.
Qed.

End SteadyWorld.


(** ** The further properties at concrete inputs *)

(** The sample worlds raise nothing but errors of the [telegram]
    library, and the chat API of [sample_world _ chat_delivers]
    delivers. *)
Lemma sample_world_raises_only_exceptions body chat :
  (∀ n text e, chat n text = Some e → is_Exception e = true) →
  @raises_only_exceptions (sample_world (api_always body) chat).
Proof.
  intros Hchat. split; [|split]; [done|done|]. exact Hchat.
Qed.

Lemma chat_down_raises n text e :
  chat_down n text = Some e → is_Exception e = true.
Proof. by intros [= <-]. Qed.

Lemma chat_down_run :
  outcome (@cycle sample_interpreter world_chat_down loop_entry) =
    Raise (TelegramError timed_out_text) ∧
  outcome (@loop sample_interpreter world_hw1 2 loop_entry) = Return tt.
Proof. vm_compute. done. Qed.

Lemma cycle_raises_only_from_report_witness :
  outcome (@cycle sample_interpreter world_chat_down loop_entry) =
    Raise (TelegramError timed_out_text) ∧
  ∃ error,
    outcome (@cycle_try sample_interpreter world_chat_down loop_entry) =
      Raise error ∧
    last (sends_of (emitted (@cycle sample_interpreter world_chat_down
                               loop_entry))) =
      Some (@error_report sample_interpreter error, false).
Proof.
  split; [exact (proj1 chat_down_run)|].
  exact (@cycle_raises_only_from_report sample_interpreter world_chat_down
           loop_entry (TelegramError timed_out_text)
           (sample_world_raises_only_exceptions response_hw1 chat_down
              chat_down_raises)
           (proj1 chat_down_run)).
Defined.

Lemma loop_requests_and_sleeps_witness :
  outcome (@loop sample_interpreter world_hw1 2 loop_entry) = Return tt ∧
  length (requests_of (emitted (@loop sample_interpreter world_hw1 2
                                  loop_entry))) = 2%nat.
Proof.
  split; [exact (proj2 chat_down_run)|].
  exact (proj2 (proj2
    (@loop_requests_and_sleeps sample_interpreter world_hw1 2 loop_entry))
    (proj2 chat_down_run)).
Defined.

Lemma steady_response_notified_once_witness :
  @message_of sample_interpreter (JDict response_hw1) =
    Return (status_template "hw1"
              "Работа проверена: ревьюеру всё понравилось. Ура!") ∧
  delivered_texts (emitted (@loop sample_interpreter world_hw1 5
                              loop_entry)) =
    [status_template "hw1"
       "Работа проверена: ревьюеру всё понравилось. Ура!"].
Proof.
  assert (@message_of sample_interpreter (JDict response_hw1) =
            Return (status_template "hw1"
                      "Работа проверена: ревьюеру всё понравилось. Ура!"))
    as Hmsg by (vm_compute; reflexivity).
  split; [exact Hmsg|].
  exact (proj2
    (@steady_response_notified_once sample_interpreter world_hw1
       "OK" "{...}" response_hw1 _ 4 loop_entry
       (λ _ _, eq_refl) (λ _ _, eq_refl) Hmsg)).
Defined.

Lemma persistent_outage_reported_once_witness :
  truthy (current_timestamp loop_entry) = true ∧
  outcome (@loop sample_interpreter world_unavailable 4 loop_entry) =
    Return tt ∧
  current_timestamp
    (final (@loop sample_interpreter world_unavailable 4 loop_entry)) =
    JNum 1000 ∧
  length (delivered_texts
            (emitted (@loop sample_interpreter world_unavailable 5
                        loop_entry))) = 1%nat.
Proof.
  split; [reflexivity|].
  destruct (@persistent_outage_reported_once sample_interpreter
              world_unavailable 503 "Service Unavailable" "try later"
              (Return JNull) 4 loop_entry
              (λ _ _, eq_refl) (λ _ _, eq_refl))
    as (inner & Ho & Hc & Hd); [discriminate|reflexivity|].
  split; [exact Ho|]. split; [exact Hc|].
  rewrite Hd. reflexivity.
Defined.
